(** * TravelPlannerApp: a shallow embedding of the travel planner component

    The React component [TravelPlannerApp] is embedded as a record of its
    state slots, one function per event handler, and a render pass that runs
    the component's effects.  What the component does to its collaborators
    (the Leaflet map, [fetch], [alert], [confirm], [console.error],
    [localStorage]) is recorded in the state as a log.  What the collaborators
    answer (the geocoder's reply, the user's answer to [confirm], the clock)
    is an argument of the event. *)

From Stdlib Require Import List String Ascii Bool Arith PeanoNat Lia.
From Stdlib Require Import NArith ZArith.
From Stdlib Require Import Floats.
From Stdlib Require Import Numbers.DecimalString Numbers.DecimalNat.
Import ListNotations.

Set Warnings "-inexact-float,-register-all".

Local Open Scope string_scope.
Local Open Scope bool_scope.
Local Open Scope list_scope.

(** ** JavaScript values the component handles *)

(** A JavaScript number is an IEEE 754 binary64, as is a primitive float.
    [Object.is] on numbers is Leibniz equality (one NaN, two zeros), [===] is
    IEEE equality. *)
Definition number : Type := float.

Definition Object_is (x y : number) : bool := PrimFloat.Leibniz.eqb x y.

Definition strict_eq (x y : number) : bool := PrimFloat.eqb x y.

Definition is_finite (x : number) : bool :=
  negb (PrimFloat.is_nan x) && negb (PrimFloat.is_infinity x).

(** Strings are sequences of code points below 256 (Latin-1); the builtins
    below are the ECMAScript ones restricted to that range. *)
Module JsString.

(** White space and line terminators of ECMAScript below 256:
    TAB, LF, VT, FF, CR, SP and NBSP. *)
Definition is_white_space (c : ascii) : bool :=
  let n := nat_of_ascii c in
  (((9 <=? n) && (n <=? 13)) || (n =? 32) || (n =? 160))%nat.

Fixpoint trimStart (s : string) : string :=
  match s with
  | EmptyString => EmptyString
  | String c r => if is_white_space c then trimStart r else s
  end.

Fixpoint trimEnd (s : string) : string :=
  match s with
  | EmptyString => EmptyString
  | String c r =>
      match trimEnd r with
      | EmptyString => if is_white_space c then EmptyString else String c EmptyString
      | r' => String c r'
      end
  end.

(** [String.prototype.trim] *)
Definition trim (s : string) : string := trimEnd (trimStart s).

(** Upper case letters below 256: A-Z, and U+00C0-U+00DE without the
    multiplication sign U+00D7; each is 32 below its lower case letter. *)
Definition lower_char (c : ascii) : ascii :=
  let n := nat_of_ascii c in
  if (((65 <=? n) && (n <=? 90))
      || ((192 <=? n) && (n <=? 222) && negb (n =? 215)))%nat
  then ascii_of_nat (n + 32) else c.

Fixpoint toLowerCase (s : string) : string :=
  match s with
  | EmptyString => EmptyString
  | String c r => String (lower_char c) (toLowerCase r)
  end.

(** [String.prototype.includes]: [sub] occurs in [s] at some position. *)
Fixpoint includes (s sub : string) : bool :=
  String.prefix sub s
  || match s with
     | EmptyString => false
     | String _ r => includes r sub
     end.

(** Truthiness of a string: the empty string is the only falsy one. *)
Definition truthy (s : string) : bool :=
  match s with EmptyString => false | _ => true end.

(** Decimal digits of an array index, as a template literal prints it. *)
Definition of_index (i : nat) : string :=
  NilEmpty.string_of_uint (Nat.to_uint i).

End JsString.

(** ** Data model *)

(** A destination id is a number in the catalog and a string ("osm-0", ...)
    for a geocoded place. *)
Inductive dest_id :=
| IdNum (n : number)
| IdStr (s : string).

Record Destination := mkDestination {
  dest_ident : dest_id;
  dest_name : string;
  coords : number * number;      (* [latitude, longitude] *)
  summary : string;
}.

(** The catalog.  The dash in the third summary is U+2014 in the source and
    is written as a hyphen here; no handler reads a summary. *)
Definition SAMPLE_DESTINATIONS : list Destination :=
  [ mkDestination (IdNum 1%float) "Paris, France" (48.8566%float, 2.3522%float)
      "Romantic city, rich museums, Eiffel Tower.";
    mkDestination (IdNum 2%float) "Tokyo, Japan" (35.6895%float, 139.6917%float)
      "Ultra-modern city with unique culture and food.";
    mkDestination (IdNum 3%float) "New York, USA" (40.7128%float, (-74.006)%float)
      "City that never sleeps - culture, finance, and food.";
    mkDestination (IdNum 4%float) "Goa, India" (15.2993%float, 73.7898%float)
      "Beaches, nightlife, and relaxed vibe." ].

(** Destination objects live in a heap and are held by reference: the result
    list, the selection and a booking's [dest] field hold addresses.  The
    catalog's objects are allocated first, at addresses 0 to 3. *)
Definition loc : Type := nat.

Definition Heap : Type := list Destination.

Definition deref (h : Heap) (l : loc) : option Destination := nth_error h l.

(** Allocating objects appends them; the addresses of the new objects are
    returned in order. *)
Definition alloc (h : Heap) (ds : list Destination) : Heap * list loc :=
  (h ++ ds, seq (List.length h) (List.length ds)).

Definition catalog_locs : list loc := seq 0 (List.length SAMPLE_DESTINATIONS).

(** An array of destinations is either the module constant
    [SAMPLE_DESTINATIONS] itself or an array built by a handler; React compares
    state by identity, and a built array is never identical to the old one. *)
Inductive array_ref :=
| SampleArray
| FreshArray (elems : list loc).

Definition elems_of (a : array_ref) : list loc :=
  match a with
  | SampleArray => catalog_locs
  | FreshArray l => l
  end.

Record Viewport := mkViewport {
  latitude : number;
  longitude : number;
  zoom : number;
}.

Record Booking := mkBooking {
  booking_id : number;           (* id: Date.now() *)
  dest : option loc;             (* dest: selected (null when nothing is selected) *)
  booking_name : string;
  booking_email : string;
  booking_date : string;         (* date: new Date().toISOString() *)
}.

(** ** JSON and the storage collaborator *)

Inductive json :=
| JNull
| JBool (b : bool)
| JNumber (x : number)
| JString (s : string)
| JArray (items : list json)
| JObject (fields : list (string * json)).

(** A stored text is modelled by the JSON document it spells, or, when it
    spells none, by its characters: [JSON.parse] returns the document of the
    first and throws on the second. *)
Inductive text :=
| Json (j : json)
| NotJson (s : string).

Definition text_truthy (t : text) : bool :=
  match t with
  | Json _ => true
  | NotJson s => JsString.truthy s
  end.

Definition JSON_parse (t : text) : option json :=
  match t with
  | Json j => Some j
  | NotJson _ => None
  end.

(** [JSON.stringify] on the values a booking holds: a number that is not
    finite is written as null and negative zero as 0, a reference is
    followed. *)
Definition json_of_number (x : number) : json :=
  if is_finite x then
    if PrimFloat.Leibniz.eqb x PrimFloat.neg_zero then JNumber PrimFloat.zero
    else JNumber x
  else JNull.

Definition json_of_dest_id (i : dest_id) : json :=
  match i with
  | IdNum n => json_of_number n
  | IdStr s => JString s
  end.

Definition json_of_destination (d : Destination) : json :=
  JObject [ ("id", json_of_dest_id (dest_ident d));
            ("name", JString (dest_name d));
            ("coords", JArray [json_of_number (fst (coords d));
                               json_of_number (snd (coords d))]);
            ("summary", JString (summary d)) ].

Definition json_of_booking (h : Heap) (b : Booking) : json :=
  JObject [ ("id", json_of_number (booking_id b));
            ("dest", match dest b with
                     | Some l => match deref h l with
                                 | Some d => json_of_destination d
                                 | None => JNull
                                 end
                     | None => JNull
                     end);
            ("name", JString (booking_name b));
            ("email", JString (booking_email b));
            ("date", JString (booking_date b)) ].

Definition JSON_stringify (h : Heap) (bs : list Booking) : text :=
  Json (JArray (map (json_of_booking h) bs)).

(** What a booking is worth with its reference followed. *)
Record BookingData := mkBookingData {
  bd_id : number;
  bd_dest : option Destination;
  bd_name : string;
  bd_email : string;
  bd_date : string;
}.

Definition booking_view (h : Heap) (b : Booking) : BookingData :=
  mkBookingData (booking_id b)
    (match dest b with Some l => deref h l | None => None end)
    (booking_name b) (booking_email b) (booking_date b).

(** The parsed document read back in the types above.  [JSON.parse] builds
    whatever the text spells, and the component takes it as its ledger.  A
    document that does not have the shape [JSON_stringify] writes (an array of
    objects with the keys id, dest, name, email, date in this order, dest an
    object with the keys id, name, coords, summary) has no counterpart in
    [Booking]; of such a document the model says nothing ([None]). *)
Definition dest_id_of_json (j : json) : option dest_id :=
  match j with
  | JNumber n => Some (IdNum n)
  | JString s => Some (IdStr s)
  | _ => None
  end.

Definition destination_of_json (j : json) : option Destination :=
  match j with
  | JObject [ ("id", ji); ("name", JString n);
              ("coords", JArray [JNumber la; JNumber lo]);
              ("summary", JString sm) ] =>
      match dest_id_of_json ji with
      | Some i => Some (mkDestination i n (la, lo) sm)
      | None => None
      end
  | _ => None
  end.

(** A booking whose dest is null is no booking the component can show: the
    list of bookings reads [b.dest.name], and the first render throws. *)
Definition booking_of_json (j : json) : option BookingData :=
  match j with
  | JObject [ ("id", JNumber i); ("dest", jd); ("name", JString n);
              ("email", JString e); ("date", JString d) ] =>
      match destination_of_json jd with
      | Some dd => Some (mkBookingData i (Some dd) n e d)
      | None => None
      end
  | _ => None
  end.

Fixpoint bookings_of_json (js : list json) : option (list BookingData) :=
  match js with
  | [] => Some []
  | j :: r =>
      match booking_of_json j, bookings_of_json r with
      | Some b, Some bs => Some (b :: bs)
      | _, _ => None
      end
  end.

(** The parsed bookings are new objects: each destination is allocated. *)
Fixpoint materialize (h : Heap) (bs : list BookingData) : Heap * list Booking :=
  match bs with
  | [] => (h, [])
  | b :: r =>
      let '(h1, d) :=
        match bd_dest b with
        | Some dd => (h ++ [dd], Some (List.length h))
        | None => (h, None)
        end in
      let '(h2, r') := materialize h1 r in
      (h2, mkBooking (bd_id b) d (bd_name b) (bd_email b) (bd_date b) :: r')
  end.

(** The initializer of the [bookings] state:
    [saved ? JSON.parse(saved) : []] inside [try], [[]] in [catch].
    The outer [None] is a stored document that parses and is no ledger of
    the shape above: the component starts over whatever it spells, or throws
    at its first render, and no state of this model stands for that. *)
Definition initial_bookings (saved : option text) : option (Heap * list Booking) :=
  match saved with
  | None => Some (SAMPLE_DESTINATIONS, [])
  | Some t =>
      if text_truthy t then
        match JSON_parse t with
        | None => Some (SAMPLE_DESTINATIONS, [])
        | Some (JArray js) =>
            match bookings_of_json js with
            | Some bs => Some (materialize SAMPLE_DESTINATIONS bs)
            | None => None
            end
        | Some _ => None
        end
      else Some (SAMPLE_DESTINATIONS, [])
  end.

(** ** The component's state and its collaborators *)

(** A call the component makes to a collaborator. *)
Inductive effect :=
| MapSetView (lat lng z : number)       (* map.setView([lat, lng], z) *)
| Fetch (q : string)                    (* fetch of the Nominatim search for q *)
| Alert (msg : string)
| Confirm (msg : string)
| ConsoleError (msg : string)
| StorageSetItem (key : string) (value : text).

Record AppState := mkState {
  heap : Heap;   (* destination objects *)
  query : string;
  results : array_ref;
  selected : option loc;   (* null or a destination object *)
  viewport : Viewport;
  bookings : list Booking;
  bookings_ver : nat;   (* identity of the bookings array: each new array has a new number *)
  showBooking : bool;
  nameRef : option string;   (* nameRef.current?.value *)
  emailRef : option string;   (* emailRef.current?.value *)
  inflight : nat;   (* geocoding requests awaited *)
  dirty : bool;   (* a state slot changed: a render is due *)
  view_deps : option Viewport;   (* dependencies of the last run of MapController's first effect *)
  persist_dep : option nat;   (* dependency of the last run of the persisting effect *)
  storage : option text;   (* localStorage.getItem("tp_bookings") *)
  log : list effect;   (* calls made to the collaborators, latest first *)
}.

Definition with_heap (v : Heap) (st : AppState) : AppState :=
  mkState v (query st) (results st) (selected st) (viewport st) (bookings st)
    (bookings_ver st) (showBooking st) (nameRef st) (emailRef st)
    (inflight st) (dirty st) (view_deps st) (persist_dep st) (storage st)
    (log st).

Definition with_query (v : string) (st : AppState) : AppState :=
  mkState (heap st) v (results st) (selected st) (viewport st) (bookings st)
    (bookings_ver st) (showBooking st) (nameRef st) (emailRef st)
    (inflight st) (dirty st) (view_deps st) (persist_dep st) (storage st)
    (log st).

Definition with_results (v : array_ref) (st : AppState) : AppState :=
  mkState (heap st) (query st) v (selected st) (viewport st) (bookings st)
    (bookings_ver st) (showBooking st) (nameRef st) (emailRef st)
    (inflight st) (dirty st) (view_deps st) (persist_dep st) (storage st)
    (log st).

Definition with_selected (v : option loc) (st : AppState) : AppState :=
  mkState (heap st) (query st) (results st) v (viewport st) (bookings st)
    (bookings_ver st) (showBooking st) (nameRef st) (emailRef st)
    (inflight st) (dirty st) (view_deps st) (persist_dep st) (storage st)
    (log st).

Definition with_viewport (v : Viewport) (st : AppState) : AppState :=
  mkState (heap st) (query st) (results st) (selected st) v (bookings st)
    (bookings_ver st) (showBooking st) (nameRef st) (emailRef st)
    (inflight st) (dirty st) (view_deps st) (persist_dep st) (storage st)
    (log st).

Definition with_bookings (v : list Booking) (st : AppState) : AppState :=
  mkState (heap st) (query st) (results st) (selected st) (viewport st) v
    (bookings_ver st) (showBooking st) (nameRef st) (emailRef st)
    (inflight st) (dirty st) (view_deps st) (persist_dep st) (storage st)
    (log st).

Definition with_bookings_ver (v : nat) (st : AppState) : AppState :=
  mkState (heap st) (query st) (results st) (selected st) (viewport st)
    (bookings st) v (showBooking st) (nameRef st) (emailRef st) (inflight st)
    (dirty st) (view_deps st) (persist_dep st) (storage st) (log st).

Definition with_showBooking (v : bool) (st : AppState) : AppState :=
  mkState (heap st) (query st) (results st) (selected st) (viewport st)
    (bookings st) (bookings_ver st) v (nameRef st) (emailRef st) (inflight st)
    (dirty st) (view_deps st) (persist_dep st) (storage st) (log st).

Definition with_nameRef (v : option string) (st : AppState) : AppState :=
  mkState (heap st) (query st) (results st) (selected st) (viewport st)
    (bookings st) (bookings_ver st) (showBooking st) v (emailRef st)
    (inflight st) (dirty st) (view_deps st) (persist_dep st) (storage st)
    (log st).

Definition with_emailRef (v : option string) (st : AppState) : AppState :=
  mkState (heap st) (query st) (results st) (selected st) (viewport st)
    (bookings st) (bookings_ver st) (showBooking st) (nameRef st) v
    (inflight st) (dirty st) (view_deps st) (persist_dep st) (storage st)
    (log st).

Definition with_inflight (v : nat) (st : AppState) : AppState :=
  mkState (heap st) (query st) (results st) (selected st) (viewport st)
    (bookings st) (bookings_ver st) (showBooking st) (nameRef st)
    (emailRef st) v (dirty st) (view_deps st) (persist_dep st) (storage st)
    (log st).

Definition with_dirty (v : bool) (st : AppState) : AppState :=
  mkState (heap st) (query st) (results st) (selected st) (viewport st)
    (bookings st) (bookings_ver st) (showBooking st) (nameRef st)
    (emailRef st) (inflight st) v (view_deps st) (persist_dep st) (storage st)
    (log st).

Definition with_view_deps (v : option Viewport) (st : AppState) : AppState :=
  mkState (heap st) (query st) (results st) (selected st) (viewport st)
    (bookings st) (bookings_ver st) (showBooking st) (nameRef st)
    (emailRef st) (inflight st) (dirty st) v (persist_dep st) (storage st)
    (log st).

Definition with_persist_dep (v : option nat) (st : AppState) : AppState :=
  mkState (heap st) (query st) (results st) (selected st) (viewport st)
    (bookings st) (bookings_ver st) (showBooking st) (nameRef st)
    (emailRef st) (inflight st) (dirty st) (view_deps st) v (storage st)
    (log st).

Definition with_storage (v : option text) (st : AppState) : AppState :=
  mkState (heap st) (query st) (results st) (selected st) (viewport st)
    (bookings st) (bookings_ver st) (showBooking st) (nameRef st)
    (emailRef st) (inflight st) (dirty st) (view_deps st) (persist_dep st) v
    (log st).

Definition with_log (v : list effect) (st : AppState) : AppState :=
  mkState (heap st) (query st) (results st) (selected st) (viewport st)
    (bookings st) (bookings_ver st) (showBooking st) (nameRef st)
    (emailRef st) (inflight st) (dirty st) (view_deps st) (persist_dep st)
    (storage st) v.

(** ** State setters

    React skips the render when a setter is given the value the slot already
    holds ([Object.is]); a setter that changes a slot marks the state dirty. *)

Definition emit (e : effect) (st : AppState) : AppState :=
  with_log (e :: log st) st.

Definition setQuery (v : string) (st : AppState) : AppState :=
  if String.eqb v (query st) then st else with_dirty true (with_query v st).

Definition setResults (a : array_ref) (st : AppState) : AppState :=
  match a, results st with
  | SampleArray, SampleArray => st
  | _, _ => with_dirty true (with_results a st)
  end.

Definition same_object (a b : option loc) : bool :=
  match a, b with
  | Some x, Some y => Nat.eqb x y
  | None, None => true
  | _, _ => false
  end.

Definition setSelected (d : option loc) (st : AppState) : AppState :=
  if same_object d (selected st) then st else with_dirty true (with_selected d st).

(** Every caller passes an object literal: the slot always changes. *)
Definition setViewport (v : Viewport) (st : AppState) : AppState :=
  with_dirty true (with_viewport v st).

Definition setViewport_with (f : Viewport -> Viewport) (st : AppState) : AppState :=
  setViewport (f (viewport st)) st.

(** Both callers build a new array (spread, filter). *)
Definition setBookings (f : list Booking -> list Booking) (st : AppState) : AppState :=
  with_dirty true
    (with_bookings_ver (S (bookings_ver st)) (with_bookings (f (bookings st)) st)).

Definition setShowBooking (b : bool) (st : AppState) : AppState :=
  if Bool.eqb b (showBooking st) then st else with_dirty true (with_showBooking b st).

(** ** Event handlers *)

Definition FOUND_ZOOM : number := 6%float.

Definition view_of (d : Destination) (z : number) : Viewport :=
  mkViewport (fst (coords d)) (snd (coords d)) z.

(** [SAMPLE_DESTINATIONS.filter((d) => d.name.toLowerCase().includes(q.toLowerCase()))] *)
Definition local_matches (h : Heap) (q : string) : list loc :=
  filter (fun l =>
            match deref h l with
            | Some d => JsString.includes (JsString.toLowerCase (dest_name d))
                                          (JsString.toLowerCase q)
            | None => false
            end) catalog_locs.

(** [handleSearch] up to its [await]: the local search, or the request to the
    geocoder. *)
Definition handleSearch (st : AppState) : AppState :=
  let q := JsString.trim (query st) in
  if negb (JsString.truthy q) then setResults SampleArray st
  else
    let local := local_matches (heap st) q in
    match local with
    | l0 :: _ =>
        match deref (heap st) l0 with
        | Some d0 =>
            setViewport (view_of d0 FOUND_ZOOM)
              (setSelected (Some l0) (setResults (FreshArray local) st))
        | None => st
        end
    | [] => with_inflight (S (inflight st)) (emit (Fetch q) st)
    end.

(** A record of the geocoder's answer; [lat] and [lon] are what [parseFloat]
    makes of the record's strings. *)
Record OsmRecord := mkOsmRecord {
  display_name : string;
  lat : number;
  lon : number;
}.

(** How the awaited request ends: [fetch] or [res.json()] throws, or the body
    is [data] ([None] for a falsy body, read as [[]] by [data || []]). *)
Inductive remote_reply :=
| Rejected
| Resolved (data : option (list OsmRecord)).

Fixpoint places_from (i : nat) (data : list OsmRecord) : list Destination :=
  match data with
  | [] => []
  | p :: r =>
      mkDestination (IdStr ("osm-" ++ JsString.of_index i)%string) (display_name p)
        (lat p, lon p) (display_name p)
      :: places_from (S i) r
  end.

(** [handleSearch] after its [await]. *)
Definition handleSearch_resume (reply : remote_reply) (st : AppState) : AppState :=
  match reply with
  | Resolved data =>
      let places := places_from 0 (match data with Some l => l | None => [] end) in
      let '(h, ls) := alloc (heap st) places in
      let st1 := setResults (FreshArray ls) (with_heap h st) in
      match ls, places with
      | l0 :: _, p0 :: _ =>
          setViewport (view_of p0 FOUND_ZOOM) (setSelected (Some l0) st1)
      | _, _ => st1
      end
  | Rejected =>
      setResults (FreshArray []) (emit (ConsoleError "Geocoding error:") st)
  end.

Definition openBooking (d : loc) (st : AppState) : AppState :=
  let st1 := setShowBooking true (setSelected (Some d) st) in
  with_emailRef (option_map (fun _ => "") (emailRef st1))
    (with_nameRef (option_map (fun _ => "") (nameRef st1)) st1).

Definition handleConfirmBooking (now : number) (iso : string) (st : AppState) : AppState :=
  let name := option_map JsString.trim (nameRef st) in
  let email := option_map JsString.trim (emailRef st) in
  match name, email with
  | Some n, Some e =>
      if negb (JsString.truthy n) || negb (JsString.truthy e)
      then emit (Alert "Please enter name and email") st
      else
        let newBooking := mkBooking now (selected st) n e iso in
        emit (Alert "Booking successful! (mock)")
          (setShowBooking false (setBookings (fun b => newBooking :: b) st))
  | _, _ => emit (Alert "Please enter name and email") st
  end.

Definition cancelBooking (id : number) (answer : bool) (st : AppState) : AppState :=
  let st1 := emit (Confirm "Cancel this booking?") st in
  if negb answer then st1
  else setBookings (filter (fun x => negb (strict_eq (booking_id x) id))) st1.

Definition DEFAULT_VIEWPORT : Viewport :=
  mkViewport 48.8566%float 2.3522%float 2.5%float.

(** The Reset button. *)
Definition handleReset (st : AppState) : AppState :=
  setViewport DEFAULT_VIEWPORT (setResults SampleArray (setQuery "" st)).

(** [{ ...prev, ...v }]: [handleMoveEnd] passes all three keys, so every key
    of [prev] is overridden. *)
Definition spread (prev v : Viewport) : Viewport :=
  mkViewport (latitude v) (longitude v) (zoom v).

Definition onViewportChange (v : Viewport) (st : AppState) : AppState :=
  setViewport_with (fun prev => spread prev v) st.

(** ** Rendering and effects *)

Definition STORAGE_KEY : string := "tp_bookings".

(** The two inputs of the booking modal exist while the modal is rendered
    ([showBooking && selected]); a new input is empty. *)
Definition modal_visible (st : AppState) : bool :=
  showBooking st && match selected st with Some _ => true | None => false end.

Definition mount_ref (visible : bool) (r : option string) : option string :=
  if visible then match r with Some v => Some v | None => Some "" end else None.

Definition mount_inputs (st : AppState) : AppState :=
  let v := modal_visible st in
  with_emailRef (mount_ref v (emailRef st)) (with_nameRef (mount_ref v (nameRef st)) st).

(** [MapController] is declared inside the body of [TravelPlannerApp]: each
    render of the application makes a new function, which React takes for
    another component type, so the old instance is unmounted and a new one
    mounted, and a mounted instance runs its effects whatever their
    dependencies ([Remount]).  [KeepInstance] is the reading in which the
    instance survives the render and the effect runs when one of
    [viewport.latitude], [viewport.longitude], [viewport.zoom] changed. *)
Inductive reconciliation :=
| Remount
| KeepInstance.

Definition same_deps (a b : Viewport) : bool :=
  Object_is (latitude a) (latitude b)
  && Object_is (longitude a) (longitude b)
  && Object_is (zoom a) (zoom b).

(** Whether the first effect of [MapController] runs at this render. *)
Definition map_effect_runs (r : reconciliation) (st : AppState) : bool :=
  match r, view_deps st with
  | Remount, _ => true
  | KeepInstance, None => true
  | KeepInstance, Some d => negb (same_deps d (viewport st))
  end.

(** The first effect of [MapController]:
    [map.setView([viewport.latitude, viewport.longitude], viewport.zoom)].
    The call is logged whatever the coordinates are.  The widget itself
    refuses a coordinate that is no number: it throws, and the application
    is unmounted.  What follows such a call is outside this model; the
    properties that let the geocoder's coordinates reach the map take them
    finite. *)
Definition map_effect (r : reconciliation) (st : AppState) : AppState :=
  let v := viewport st in
  with_view_deps (Some v)
    (if map_effect_runs r st
     then emit (MapSetView (latitude v) (longitude v) (zoom v)) st
     else st).

(** Whether the persisting effect runs: the [bookings] array is another one
    than at its last run. *)
Definition persist_effect_runs (st : AppState) : bool :=
  match persist_dep st with
  | Some n => negb (Nat.eqb n (bookings_ver st))
  | None => true
  end.

(** [localStorage.setItem("tp_bookings", JSON.stringify(bookings))] *)
Definition persist_effect (st : AppState) : AppState :=
  if persist_effect_runs st then
    let t := JSON_stringify (heap st) (bookings st) in
    with_persist_dep (Some (bookings_ver st))
      (emit (StorageSetItem STORAGE_KEY t) (with_storage (Some t) st))
  else st.

Definition render (r : reconciliation) (st : AppState) : AppState :=
  with_dirty false (persist_effect (map_effect r (mount_inputs st))).

Definition commit (r : reconciliation) (st : AppState) : AppState :=
  if dirty st then render r st else st.

(** ** Events *)

Inductive event :=
| ChangeQuery (v : string)                      (* typing in the search box *)
| SubmitSearch                                  (* the search form *)
| GeocodeReply (reply : remote_reply)           (* the awaited request ends *)
| ClickReset
| ClickView (d : loc)
| ClickBook (d : loc)
| ClickZoom (d : loc)
| ClickGo (i : nat)                             (* Go on the i-th booking *)
| ClickCancel (id : number) (answer : bool)     (* Cancel, and the answer to confirm() *)
| TypeName (v : string)
| TypeEmail (v : string)
| SubmitBooking (now : number) (iso : string)   (* Confirm, and the clock *)
| CloseBooking
| MoveEnd (v : Viewport).                       (* the map's moveend: getCenter(), getZoom() *)

Definition ZOOM_IN : number := 10%float.

Definition view_dest (d : loc) (z : number) (st : AppState) : AppState :=
  match deref (heap st) d with
  | Some dd => setViewport (view_of dd z) st
  | None => st
  end.

(** The buttons of a destination exist for the destinations rendered, which
    are objects of the heap: an event that names no object is no event. *)
Definition handle (ev : event) (st : AppState) : AppState :=
  match ev with
  | ChangeQuery v => setQuery v st
  | SubmitSearch => handleSearch st
  | GeocodeReply reply =>
      match inflight st with
      | O => st
      | S n => handleSearch_resume reply (with_inflight n st)
      end
  | ClickReset => handleReset st
  | ClickView d =>
      match deref (heap st) d with
      | Some dd => setViewport (view_of dd FOUND_ZOOM) (setSelected (Some d) st)
      | None => st
      end
  | ClickBook d =>
      match deref (heap st) d with
      | Some _ => openBooking d st
      | None => st
      end
  | ClickZoom d => view_dest d ZOOM_IN st
  | ClickGo i =>
      match nth_error (bookings st) i with
      | Some b =>
          match dest b with
          | Some l => view_dest l FOUND_ZOOM st
          | None => st
          end
      | None => st
      end
  | ClickCancel id answer => cancelBooking id answer st
  | TypeName v => with_nameRef (option_map (fun _ => v) (nameRef st)) st
  | TypeEmail v => with_emailRef (option_map (fun _ => v) (emailRef st)) st
  | SubmitBooking now iso => handleConfirmBooking now iso st
  | CloseBooking => setShowBooking false st
  | MoveEnd v => onViewportChange v st
  end.

(** One event: its handler, then the render it caused, if any. *)
Definition step (r : reconciliation) (ev : event) (st : AppState) : AppState :=
  commit r (handle ev st).

Definition run (r : reconciliation) (evs : list event) (st : AppState) : AppState :=
  fold_left (fun s ev => step r ev s) evs st.

(** The first render, over what the storage holds. *)
Definition boot (r : reconciliation) (saved : option text)
    (h : Heap) (bs : list Booking) : AppState :=
  commit r
    (mkState h "" SampleArray None DEFAULT_VIEWPORT bs 0 false None None 0
             true None None saved []).

Definition mount (r : reconciliation) (saved : option text) : option AppState :=
  match initial_bookings saved with
  | Some (h, bs) => Some (boot r saved h bs)
  | None => None
  end.

(** The application started over an empty storage. *)
Definition started (r : reconciliation) : AppState :=
  boot r None SAMPLE_DESTINATIONS [].

(** ** Vocabulary of the properties *)

Definition first_char (s : string) : option ascii :=
  match s with
  | EmptyString => None
  | String c _ => Some c
  end.

Fixpoint last_char (s : string) : option ascii :=
  match s with
  | EmptyString => None
  | String c EmptyString => Some c
  | String _ r => last_char r
  end.

(** Neither empty nor white at either end. *)
Definition clean (s : string) : Prop :=
  (exists c, first_char s = Some c /\ JsString.is_white_space c = false)
  /\ (exists c, last_char s = Some c /\ JsString.is_white_space c = false).

Fixpoint all_white (s : string) : bool :=
  match s with
  | EmptyString => true
  | String c r => JsString.is_white_space c && all_white r
  end.

(** The states the application goes through: the first render over some
    storage content, then one event after the other. *)
Inductive reachable (r : reconciliation) : AppState -> Prop :=
| reach_mount saved st : mount r saved = Some st -> reachable r st
| reach_step ev st : reachable r st -> reachable r (step r ev st).

Definition valid_loc (h : Heap) (l : loc) : Prop := l < List.length h.

Definition valid_ref (h : Heap) (o : option loc) : Prop :=
  match o with
  | Some l => valid_loc h l
  | None => True
  end.

(** What holds between two events: no render is due, both effects have seen
    the current state, the storage holds the current bookings, the catalog's
    objects are the first of the heap, and every reference held is to an
    object of the heap. *)
Record settled (st : AppState) : Prop := mkSettled {
  settled_clean : dirty st = false;
  settled_view : view_deps st = Some (viewport st);
  settled_persist : persist_dep st = Some (bookings_ver st);
  settled_storage : storage st = Some (JSON_stringify (heap st) (bookings st));
  settled_catalog : exists ext, heap st = SAMPLE_DESTINATIONS ++ ext;
  settled_results : Forall (valid_loc (heap st)) (elems_of (results st));
  settled_selected : valid_ref (heap st) (selected st);
  settled_bookings : Forall (fun b => valid_ref (heap st) (dest b)) (bookings st);
}.

(** The state slots and what the handlers have besides them. *)
Definition slots (st : AppState) :=
  (heap st, query st, results st, selected st, viewport st,
   bookings st, bookings_ver st, showBooking st, inflight st).


(** The references are sound. *)
Record coherent (st : AppState) : Prop := mkCoherent {
  coh_catalog : exists ext, heap st = SAMPLE_DESTINATIONS ++ ext;
  coh_results : Forall (valid_loc (heap st)) (elems_of (results st));
  coh_selected : valid_ref (heap st) (selected st);
  coh_bookings : Forall (fun b => valid_ref (heap st) (dest b)) (bookings st);
}.

(** The effects are late by at most the render that is due. *)
Record pending (st : AppState) : Prop := mkPending {
  pend_coherent : coherent st;
  pend_persist :
    match persist_dep st with
    | Some n => n <= bookings_ver st
                /\ (n = bookings_ver st ->
                    storage st = Some (JSON_stringify (heap st) (bookings st)))
    | None => True
    end;
  pend_clean :
    dirty st = false ->
    persist_dep st = Some (bookings_ver st) /\ view_deps st = Some (viewport st);
}.


Definition is_fetch (e : effect) : bool :=
  match e with Fetch _ => true | _ => false end.

Definition is_alert (e : effect) : bool :=
  match e with Alert _ => true | _ => false end.

(** A number JSON writes and reads back as it is: finite, and not the
    negative zero. *)
Definition json_exact (x : number) : bool :=
  is_finite x && negb (PrimFloat.Leibniz.eqb x PrimFloat.neg_zero).

Definition exact_destination (d : Destination) : bool :=
  match dest_ident d with IdNum n => json_exact n | IdStr _ => true end
  && json_exact (fst (coords d)) && json_exact (snd (coords d)).

Definition exact_booking (b : BookingData) : bool :=
  json_exact (bd_id b)
  && match bd_dest b with Some d => exact_destination d | None => true end.

(** The clock reading [now] is later than every id of the ledger. *)
Definition later_than_all (now : number) (bs : list Booking) : Prop :=
  Forall (fun b => PrimFloat.ltb (booking_id b) now = true) bs.

(** The ledger holds no booking whose id is [===] to [id]. *)
Definition absent (id : number) (bs : list Booking) : Prop :=
  Forall (fun b => strict_eq (booking_id b) id = false) bs.

(** Each booking is later than those after it. *)
Fixpoint newest_first (bs : list Booking) : Prop :=
  match bs with
  | [] => True
  | b :: r => later_than_all (booking_id b) r /\ newest_first r
  end.

(** The test [handleSearch] filters the catalog with. *)
Definition name_matches (q : string) (d : Destination) : bool :=
  JsString.includes (JsString.toLowerCase (dest_name d)) (JsString.toLowerCase q).

(** A reply of the geocoder that brings no place. *)
Definition no_places (reply : remote_reply) : bool :=
  match reply with
  | Rejected => true
  | Resolved None => true
  | Resolved (Some []) => true
  | Resolved (Some (_ :: _)) => false
  end.

(** ** Sample sessions *)

Definition ada_clock : number := 1700000000000%float.

Definition ada_date : string := "2023-11-14T22:13:20.000Z".

(** Book is clicked on Paris and the form is filled in. *)
Definition ada_at_form (r : reconciliation) : AppState :=
  run r [ClickBook 0; TypeName "  Ada "; TypeEmail "ada@example.com"] (started r).

(** The same with a name of white space only. *)
Definition blank_at_form (r : reconciliation) : AppState :=
  run r [ClickBook 0; TypeName "   "; TypeEmail "ada@example.com"] (started r).

(** "  toKYo " is typed in the search box. *)
Definition tokyo_typed (r : reconciliation) : AppState :=
  step r (ChangeQuery "  toKYo ") (started r).

(** A place no catalog name contains is typed in the search box. *)
Definition nowhere_typed (r : reconciliation) : AppState :=
  step r (ChangeQuery "Nonexistentplace123") (started r).

(** Tokyo was searched and found, then the search box was emptied. *)
Definition tokyo_then_cleared (r : reconciliation) : AppState :=
  run r [ChangeQuery "Tokyo"; SubmitSearch; ChangeQuery ""] (started r).

(** A place found by the geocoder at latitude -0. *)
Definition null_island : OsmRecord :=
  mkOsmRecord "Null Island" PrimFloat.neg_zero 0%float.

(** Ada searches a place the catalog does not have, the geocoder answers
    with Null Island, and Ada books it. *)
Definition null_island_booked (r : reconciliation) : AppState :=
  run r [SubmitSearch; GeocodeReply (Resolved (Some [null_island]));
         ClickBook 4; TypeName "Ada"; TypeEmail "ada@example.com";
         SubmitBooking ada_clock ada_date]
    (nowhere_typed r).

(** Where a gesture of the user leaves the map. *)
Definition gesture_end : Viewport := mkViewport 10%float 20%float 5%float.

(** Ada has booked Paris. *)
Definition ada_booked (r : reconciliation) : AppState :=
  step r (SubmitBooking ada_clock ada_date) (ada_at_form r).

(** Ada has booked Paris; Book is clicked on Tokyo and the form is filled
    in again. *)
Definition second_form (r : reconciliation) : AppState :=
  run r [ClickBook 1; TypeName "Ada"; TypeEmail "ada@example.com"] (ada_booked r).

(** One millisecond after [ada_clock]. *)
Definition later_clock : number := 1700000000001%float.

(** Tokyo was searched and found. *)
Definition tokyo_found (r : reconciliation) : AppState :=
  run r [ChangeQuery "Tokyo"; SubmitSearch] (started r).


(** ** Vocabulary of the further properties *)

(** The place made of the [k]-th record of a reply. *)
Definition geocoded (k : nat) (p : OsmRecord) : Destination :=
  mkDestination (IdStr ("osm-" ++ JsString.of_index k)%string) (display_name p)
    (lat p, lon p) (display_name p).

(** The id of the object a reference leads to. *)
Definition id_at (h : Heap) (l : loc) : option dest_id :=
  option_map dest_ident (deref h l).

(** No two entries of the result list have the same id (the list's rows
    and the map's markers are keyed by it). *)
Definition keyed (st : AppState) : Prop :=
  NoDup (map (id_at (heap st)) (elems_of (results st))).

Definition mounted (r : option string) : bool :=
  match r with Some _ => true | None => false end.

(** The two inputs exist exactly while the booking modal is shown. *)
Definition inputs_follow_modal (st : AppState) : Prop :=
  mounted (nameRef st) = modal_visible st /\ mounted (emailRef st) = modal_visible st.

(** The events that can touch the ledger. *)
Definition ledger_event (ev : event) : bool :=
  match ev with
  | SubmitBooking _ _ => true
  | ClickCancel _ _ => true
  | _ => false
  end.

Definition is_set_view (e : effect) : bool :=
  match e with MapSetView _ _ _ => true | _ => false end.

Definition is_storage_write (e : effect) : bool :=
  match e with StorageSetItem _ _ => true | _ => false end.

(** Every booking of the ledger has a destination. *)
Definition with_destinations (st : AppState) : Prop :=
  Forall (fun b => dest b <> None) (bookings st).

(** A record whose coordinates the map accepts. *)
Definition well_located (p : OsmRecord) : bool :=
  is_finite (lat p) && is_finite (lon p).

(** * Properties *)

(** ** Trimming *)

Module TrimFacts.
Import JsString.

Lemma trimStart_first s :
  trimStart s = EmptyString
  \/ exists c r, trimStart s = String c r /\ is_white_space c = false.
Proof.
  induction s as [|c r IH]; simpl.
  - now left.
  - destruct (is_white_space c) eqn:Hc; [exact IH|].
    right. now exists c, r.
Qed.

Lemma trimEnd_keeps_first c r :
  is_white_space c = false -> exists r', trimEnd (String c r) = String c r'.
Proof.
  intros Hc. simpl. destruct (trimEnd r) as [|c' r'].
  - rewrite Hc. now exists EmptyString.
  - now exists (String c' r').
Qed.

Lemma trimEnd_last s :
  trimEnd s = EmptyString
  \/ exists c, last_char (trimEnd s) = Some c /\ is_white_space c = false.
Proof.
  induction s as [|c r IH]; simpl.
  - now left.
  - destruct (trimEnd r) as [|c' r'] eqn:Hr.
    + destruct (is_white_space c) eqn:Hc; [now left|].
      right. exists c. now split.
    + right. destruct IH as [IH|[d [Hd Hw]]]; [discriminate|].
      exists d. split; [|exact Hw]. exact Hd.
Qed.

Lemma trim_clean s : trim s <> EmptyString -> clean (trim s).
Proof.
  unfold trim. intros Hne. split.
  - destruct (trimStart_first s) as [He|[c [r [He Hc]]]].
    + rewrite He in Hne. now elim Hne.
    + rewrite He. destruct (trimEnd_keeps_first c r Hc) as [r' Hr'].
      rewrite Hr'. now exists c.
  - destruct (trimEnd_last (trimStart s)) as [He|H]; [contradiction|exact H].
Qed.

Lemma trimStart_all_white s : all_white s = true -> trimStart s = EmptyString.
Proof.
  induction s as [|c r IH]; simpl; [reflexivity|].
  intros H. apply andb_prop in H as [Hc Hr]. rewrite Hc. now apply IH.
Qed.

(** An input made of white space only trims to the empty string. *)
Lemma trim_all_white s : all_white s = true -> trim s = EmptyString.
Proof.
  intros H. unfold trim. now rewrite trimStart_all_white.
Qed.

Lemma truthy_false s : truthy s = false <-> s = EmptyString.
Proof. destruct s; simpl; split; congruence. Qed.

Lemma truthy_true s : truthy s = true <-> s <> EmptyString.
Proof. destruct s; simpl; split; congruence. Qed.

End TrimFacts.

(** ** The heap only grows *)

Lemma deref_app h ext l d : deref h l = Some d -> deref (h ++ ext) l = Some d.
Proof.
  unfold deref. intros H. rewrite nth_error_app1; [exact H|].
  apply nth_error_Some. congruence.
Qed.

Lemma deref_app_valid h ext l : valid_loc h l -> deref (h ++ ext) l = deref h l.
Proof. unfold deref, valid_loc. intros H. now rewrite nth_error_app1. Qed.

Lemma valid_loc_app h ext l : valid_loc h l -> valid_loc (h ++ ext) l.
Proof. unfold valid_loc. rewrite length_app. lia. Qed.

Lemma valid_ref_app h ext o : valid_ref h o -> valid_ref (h ++ ext) o.
Proof. destruct o; simpl; [apply valid_loc_app|trivial]. Qed.

Lemma deref_Some_valid h l d : deref h l = Some d -> valid_loc h l.
Proof. unfold deref, valid_loc. intros H. apply nth_error_Some. congruence. Qed.

Lemma booking_view_app h ext b :
  valid_ref h (dest b) -> booking_view (h ++ ext) b = booking_view h b.
Proof.
  unfold booking_view. destruct (dest b) as [l|]; simpl; [|reflexivity].
  intros H. now rewrite deref_app_valid.
Qed.

Lemma json_of_booking_app h ext b :
  valid_ref h (dest b) -> json_of_booking (h ++ ext) b = json_of_booking h b.
Proof.
  unfold json_of_booking. destruct (dest b) as [l|]; simpl; [|reflexivity].
  intros H. now rewrite deref_app_valid.
Qed.

Lemma JSON_stringify_app h ext bs :
  Forall (fun b => valid_ref h (dest b)) bs ->
  JSON_stringify (h ++ ext) bs = JSON_stringify h bs.
Proof.
  intros H. unfold JSON_stringify. do 2 f_equal.
  apply map_ext_in. intros b Hb. apply json_of_booking_app.
  rewrite Forall_forall in H. now apply H.
Qed.

(** ** What a handler leaves for the render *)

Lemma settled_pending st : settled st -> pending st.
Proof.
  intros [Hd Hv Hp Hs Hc Hr Hsel Hb]. split.
  - now split.
  - rewrite Hp. split; [lia|]. intros _. exact Hs.
  - intros _. now split.
Qed.

(** The render touches the effects' bookkeeping, the inputs and the
    collaborators, and no state slot. *)
Lemma slots_eq a b :
  slots a = slots b ->
  heap a = heap b /\ query a = query b /\ results a = results b
  /\ selected a = selected b /\ viewport a = viewport b
  /\ bookings a = bookings b /\ bookings_ver a = bookings_ver b
  /\ showBooking a = showBooking b /\ inflight a = inflight b.
Proof. unfold slots. intros H. injection H. intros. repeat split; assumption. Qed.

Lemma mount_inputs_slots st : slots (mount_inputs st) = slots st.
Proof. reflexivity. Qed.

Lemma map_effect_slots r st : slots (map_effect r st) = slots st.
Proof.
  unfold map_effect. cbv zeta.
  match goal with |- context [if ?c then _ else _] => destruct c end; reflexivity.
Qed.

Lemma persist_effect_slots st : slots (persist_effect st) = slots st.
Proof.
  unfold persist_effect. cbv zeta.
  match goal with |- context [if ?c then _ else _] => destruct c end; reflexivity.
Qed.

Lemma render_slots r st : slots (render r st) = slots st.
Proof.
  unfold render.
  transitivity (slots (persist_effect (map_effect r (mount_inputs st)))); [reflexivity|].
  now rewrite persist_effect_slots, map_effect_slots, mount_inputs_slots.
Qed.

Ltac from_slots H :=
  apply slots_eq in H; decompose [and] H; assumption.

Lemma render_heap r st : heap (render r st) = heap st.
Proof. pose proof (render_slots r st) as H. from_slots H. Qed.

Lemma render_query r st : query (render r st) = query st.
Proof. pose proof (render_slots r st) as H. from_slots H. Qed.

Lemma render_results r st : results (render r st) = results st.
Proof. pose proof (render_slots r st) as H. from_slots H. Qed.

Lemma render_selected r st : selected (render r st) = selected st.
Proof. pose proof (render_slots r st) as H. from_slots H. Qed.

Lemma render_viewport r st : viewport (render r st) = viewport st.
Proof. pose proof (render_slots r st) as H. from_slots H. Qed.

Lemma render_bookings r st : bookings (render r st) = bookings st.
Proof. pose proof (render_slots r st) as H. from_slots H. Qed.

Lemma render_bookings_ver r st : bookings_ver (render r st) = bookings_ver st.
Proof. pose proof (render_slots r st) as H. from_slots H. Qed.

Lemma render_showBooking r st : showBooking (render r st) = showBooking st.
Proof. pose proof (render_slots r st) as H. from_slots H. Qed.

Lemma render_inflight r st : inflight (render r st) = inflight st.
Proof. pose proof (render_slots r st) as H. from_slots H. Qed.

Lemma render_dirty r st : dirty (render r st) = false.
Proof. reflexivity. Qed.

Lemma map_effect_persist r st :
  persist_dep (map_effect r st) = persist_dep st /\ storage (map_effect r st) = storage st.
Proof.
  unfold map_effect. cbv zeta.
  match goal with |- context [if ?c then _ else _] => destruct c end; now split.
Qed.

Lemma map_effect_view_deps r st : view_deps (map_effect r st) = Some (viewport st).
Proof. reflexivity. Qed.

Lemma persist_effect_view_deps st : view_deps (persist_effect st) = view_deps st.
Proof.
  unfold persist_effect. cbv zeta.
  match goal with |- context [if ?c then _ else _] => destruct c end; reflexivity.
Qed.

Lemma persist_effect_persist_dep st :
  persist_dep (persist_effect st) = Some (bookings_ver st).
Proof.
  unfold persist_effect, persist_effect_runs. cbv zeta.
  destruct (persist_dep st) as [n|] eqn:En; [|reflexivity].
  destruct (Nat.eqb n (bookings_ver st)) eqn:E; cbn; [|reflexivity].
  apply Nat.eqb_eq in E. now subst.
Qed.

Lemma persist_effect_storage st :
  match persist_dep st with
  | Some n => n = bookings_ver st ->
              storage st = Some (JSON_stringify (heap st) (bookings st))
  | None => True
  end ->
  storage (persist_effect st) = Some (JSON_stringify (heap st) (bookings st)).
Proof.
  unfold persist_effect, persist_effect_runs. cbv zeta.
  destruct (persist_dep st) as [n|] eqn:En; [|reflexivity].
  destruct (Nat.eqb n (bookings_ver st)) eqn:E; cbn; [|reflexivity].
  apply Nat.eqb_eq in E. intros H. now apply H.
Qed.

Lemma render_view_deps r st : view_deps (render r st) = Some (viewport st).
Proof.
  unfold render.
  transitivity (view_deps (persist_effect (map_effect r (mount_inputs st)))); [reflexivity|].
  now rewrite persist_effect_view_deps, map_effect_view_deps.
Qed.

Lemma render_persist_dep r st : persist_dep (render r st) = Some (bookings_ver st).
Proof.
  unfold render.
  transitivity (persist_dep (persist_effect (map_effect r (mount_inputs st)))); [reflexivity|].
  rewrite persist_effect_persist_dep.
  pose proof (map_effect_slots r (mount_inputs st)) as H.
  rewrite mount_inputs_slots in H. apply slots_eq in H.
  decompose [and] H. congruence.
Qed.

Lemma render_storage r st :
  match persist_dep st with
  | Some n => n = bookings_ver st ->
              storage st = Some (JSON_stringify (heap st) (bookings st))
  | None => True
  end ->
  storage (render r st) = Some (JSON_stringify (heap st) (bookings st)).
Proof.
  intros Hp. unfold render.
  transitivity (storage (persist_effect (map_effect r (mount_inputs st)))); [reflexivity|].
  pose proof (map_effect_slots r (mount_inputs st)) as H.
  rewrite mount_inputs_slots in H. apply slots_eq in H.
  destruct H as (Hh & _ & _ & _ & _ & Hb & Hv & _).
  destruct (map_effect_persist r (mount_inputs st)) as [Hpd Hst].
  rewrite persist_effect_storage.
  - now rewrite Hh, Hb.
  - rewrite Hpd, Hst, Hh, Hb, Hv. exact Hp.
Qed.

Lemma map_effect_log r st :
  log (map_effect r st)
  = (if map_effect_runs r st
     then [MapSetView (latitude (viewport st)) (longitude (viewport st))
             (zoom (viewport st))]
     else []) ++ log st.
Proof. unfold map_effect. cbv zeta. now destruct (map_effect_runs r st). Qed.

Lemma persist_effect_log st :
  log (persist_effect st)
  = (if persist_effect_runs st
     then [StorageSetItem STORAGE_KEY (JSON_stringify (heap st) (bookings st))]
     else []) ++ log st.
Proof. unfold persist_effect. now destruct (persist_effect_runs st). Qed.

Lemma map_effect_persist_runs r st :
  persist_effect_runs (map_effect r st) = persist_effect_runs st.
Proof.
  unfold persist_effect_runs.
  destruct (map_effect_persist r st) as [-> _].
  pose proof (map_effect_slots r st) as H. apply slots_eq in H.
  destruct H as (_ & _ & _ & _ & _ & _ & -> & _). reflexivity.
Qed.

(** What a render adds to the log: the map's command, then the write. *)
Lemma render_log r st :
  log (render r st)
  = (if persist_effect_runs st
     then [StorageSetItem STORAGE_KEY (JSON_stringify (heap st) (bookings st))]
     else [])
    ++ (if map_effect_runs r st
        then [MapSetView (latitude (viewport st)) (longitude (viewport st))
                (zoom (viewport st))]
        else [])
    ++ log st.
Proof.
  unfold render.
  transitivity (log (persist_effect (map_effect r (mount_inputs st)))); [reflexivity|].
  rewrite persist_effect_log, map_effect_log, map_effect_persist_runs.
  pose proof (map_effect_slots r (mount_inputs st)) as H.
  rewrite mount_inputs_slots in H. apply slots_eq in H.
  destruct H as (-> & _ & _ & _ & _ & -> & _). reflexivity.
Qed.

Lemma commit_log_extends r st : exists l, log (commit r st) = l ++ log st.
Proof.
  unfold commit. destruct (dirty st).
  - rewrite render_log. rewrite app_assoc. eauto.
  - now exists [].
Qed.

Lemma render_settled r st : pending st -> settled (render r st).
Proof.
  intros [[Hc Hr Hsel Hb] Hp _]. split.
  - apply render_dirty.
  - rewrite render_view_deps. now rewrite render_viewport.
  - rewrite render_persist_dep. now rewrite render_bookings_ver.
  - rewrite render_heap, render_bookings. apply render_storage.
    destruct (persist_dep st); [|exact I]. now destruct Hp.
  - now rewrite render_heap.
  - now rewrite render_heap, render_results.
  - now rewrite render_heap, render_selected.
  - now rewrite render_heap, render_bookings.
Qed.

Lemma commit_settled r st : pending st -> settled (commit r st).
Proof.
  intros H. unfold commit. destruct (dirty st) eqn:Hd.
  - now apply render_settled.
  - destruct H as [[Hc Hr Hsel Hb] Hp Hcl]. destruct (Hcl Hd) as [Hpd Hvd].
    split; auto. rewrite Hpd in Hp. now apply Hp.
Qed.

(** ** Every setter keeps [pending] *)

Ltac pending_intro H :=
  let Hc := fresh "Hc" in let Hr := fresh "Hr" in let Hsel := fresh "Hsel" in
  let Hb := fresh "Hb" in let Hp := fresh "Hp" in let Hcl := fresh "Hcl" in
  destruct H as [[Hc Hr Hsel Hb] Hp Hcl].

Ltac pending_easy :=
  split; [split|..]; cbn; solve [assumption | discriminate | auto].

Lemma pending_emit e st : pending st -> pending (emit e st).
Proof. intros H. pending_intro H. pending_easy. Qed.

Lemma pending_with_inflight n st : pending st -> pending (with_inflight n st).
Proof. intros H. pending_intro H. pending_easy. Qed.

Lemma pending_with_nameRef v st : pending st -> pending (with_nameRef v st).
Proof. intros H. pending_intro H. pending_easy. Qed.

Lemma pending_with_emailRef v st : pending st -> pending (with_emailRef v st).
Proof. intros H. pending_intro H. pending_easy. Qed.

Lemma pending_setQuery v st : pending st -> pending (setQuery v st).
Proof.
  intros H. unfold setQuery. destruct (String.eqb v (query st)); [exact H|].
  pending_intro H. pending_easy.
Qed.

Lemma pending_setShowBooking b st : pending st -> pending (setShowBooking b st).
Proof.
  intros H. unfold setShowBooking. destruct (Bool.eqb b (showBooking st)); [exact H|].
  pending_intro H. pending_easy.
Qed.

Lemma pending_setViewport v st : pending st -> pending (setViewport v st).
Proof. intros H. unfold setViewport. pending_intro H. pending_easy. Qed.

Lemma pending_setSelected d st :
  valid_ref (heap st) d -> pending st -> pending (setSelected d st).
Proof.
  intros Hd H. unfold setSelected. destruct (same_object d (selected st)); [exact H|].
  pending_intro H. pending_easy.
Qed.

Lemma pending_setResults a st :
  Forall (valid_loc (heap st)) (elems_of a) -> pending st -> pending (setResults a st).
Proof.
  intros Ha H. unfold setResults.
  destruct a; [destruct (results st); [exact H|]|]; pending_intro H; pending_easy.
Qed.

Lemma pending_setBookings f st :
  Forall (fun b => valid_ref (heap st) (dest b)) (f (bookings st)) ->
  pending st -> pending (setBookings f st).
Proof.
  intros Hf H. unfold setBookings. pending_intro H.
  split; [split|..]; cbn; try assumption; try discriminate.
  destruct (persist_dep st) as [n|]; [|exact I].
  destruct Hp as [Hle _]. split; [lia|]. intros ->. lia.
Qed.

Lemma pending_with_heap ext st :
  pending st -> pending (with_heap (heap st ++ ext) st).
Proof.
  intros H. pending_intro H.
  split; [split|..];
    cbn [heap with_heap results selected bookings persist_dep bookings_ver
         storage dirty view_deps viewport].
  - destruct Hc as [e0 He0]. exists (e0 ++ ext). rewrite He0. symmetry. apply app_assoc.
  - eapply Forall_impl; [|exact Hr]. intros l. apply valid_loc_app.
  - now apply valid_ref_app.
  - eapply Forall_impl; [|exact Hb]. intros b. apply valid_ref_app.
  - destruct (persist_dep st) as [n|]; [|exact I].
    destruct Hp as [Hle Hs]. split; [exact Hle|].
    intros Hn. rewrite JSON_stringify_app; auto.
  - exact Hcl.
Qed.

Lemma catalog_locs_valid h ext :
  h = SAMPLE_DESTINATIONS ++ ext -> Forall (valid_loc h) catalog_locs.
Proof.
  intros ->. apply Forall_forall. intros l Hl. unfold catalog_locs in Hl.
  apply in_seq in Hl. unfold valid_loc. rewrite length_app. lia.
Qed.

Lemma local_matches_valid h q : Forall (valid_loc h) (local_matches h q).
Proof.
  apply Forall_forall. intros l Hl. unfold local_matches in Hl.
  apply filter_In in Hl as [_ Hl].
  destruct (deref h l) eqn:E; [|discriminate]. eapply deref_Some_valid; eauto.
Qed.

Lemma setQuery_heap v st : heap (setQuery v st) = heap st.
Proof. unfold setQuery. now destruct (String.eqb v (query st)). Qed.

Lemma setResults_heap a st : heap (setResults a st) = heap st.
Proof. unfold setResults. now destruct a, (results st). Qed.

Lemma setSelected_heap d st : heap (setSelected d st) = heap st.
Proof. unfold setSelected. now destruct (same_object d (selected st)). Qed.

Lemma setShowBooking_heap b st : heap (setShowBooking b st) = heap st.
Proof. unfold setShowBooking. now destruct (Bool.eqb b (showBooking st)). Qed.

(** ** Every handler keeps [pending] *)

Lemma handleSearch_pending st : pending st -> pending (handleSearch st).
Proof.
  intros H. unfold handleSearch. cbv zeta.
  destruct (negb (JsString.truthy (JsString.trim (query st)))).
  - apply pending_setResults; [|exact H].
    destruct H as [[[ext He] _ _ _] _ _]. now apply catalog_locs_valid with ext.
  - pose proof (local_matches_valid (heap st) (JsString.trim (query st))) as Hv.
    destruct (local_matches (heap st) (JsString.trim (query st))) as [|l0 rest] eqn:El.
    + now apply pending_with_inflight, pending_emit.
    + destruct (deref (heap st) l0) as [d0|] eqn:Ed; [|exact H].
      apply pending_setViewport. apply pending_setSelected.
      * rewrite setResults_heap. simpl. now inversion Hv.
      * apply pending_setResults; [exact Hv|exact H].
Qed.

Lemma alloc_valid h ds : Forall (valid_loc (h ++ ds)) (seq (List.length h) (List.length ds)).
Proof.
  apply Forall_forall. intros l Hl. apply in_seq in Hl.
  unfold valid_loc. rewrite length_app. lia.
Qed.

Lemma handleSearch_resume_pending reply st :
  pending st -> pending (handleSearch_resume reply st).
Proof.
  intros H. unfold handleSearch_resume. destruct reply as [|data].
  - apply pending_setResults; [constructor|]. now apply pending_emit.
  - set (places := places_from 0 (match data with Some l => l | None => [] end)).
    unfold alloc.
    assert (Hst1 : pending (setResults (FreshArray (seq (List.length (heap st)) (List.length places)))
                              (with_heap (heap st ++ places) st))).
    { apply pending_setResults; [apply alloc_valid|]. now apply pending_with_heap. }
    destruct places as [|p0 ps] eqn:Ep; [exact Hst1|].
    cbn [List.length seq] in *.
    apply pending_setViewport. apply pending_setSelected; [|exact Hst1].
    rewrite setResults_heap. cbn. unfold valid_loc. rewrite length_app. simpl. lia.
Qed.

Lemma view_dest_pending d z st : pending st -> pending (view_dest d z st).
Proof.
  intros H. unfold view_dest. destruct (deref (heap st) d); [|exact H].
  now apply pending_setViewport.
Qed.

Lemma handle_pending ev st : pending st -> pending (handle ev st).
Proof.
  intros H. destruct ev; cbn [handle].
  - now apply pending_setQuery.
  - now apply handleSearch_pending.
  - destruct (inflight st); [exact H|].
    apply handleSearch_resume_pending. now apply pending_with_inflight.
  - unfold handleReset. apply pending_setViewport. apply pending_setResults.
    + rewrite setQuery_heap. destruct H as [[[ext He] _ _ _] _ _].
      now apply catalog_locs_valid with ext.
    + now apply pending_setQuery.
  - destruct (deref (heap st) d) eqn:Ed; [|exact H].
    apply pending_setViewport. apply pending_setSelected; [|exact H].
    eapply deref_Some_valid; eauto.
  - destruct (deref (heap st) d) eqn:Ed; [|exact H].
    unfold openBooking. cbv zeta.
    apply pending_with_emailRef, pending_with_nameRef, pending_setShowBooking.
    apply pending_setSelected; [|exact H]. eapply deref_Some_valid; eauto.
  - now apply view_dest_pending.
  - destruct (nth_error (bookings st) i) as [b|]; [|exact H].
    destruct (dest b); [|exact H]. now apply view_dest_pending.
  - unfold cancelBooking. cbv zeta. destruct (negb answer).
    + now apply pending_emit.
    + apply pending_setBookings; [|now apply pending_emit].
      cbn. destruct H as [[_ _ _ Hb] _ _].
      apply Forall_forall. intros b Hin. apply filter_In in Hin as [Hin _].
      rewrite Forall_forall in Hb. now apply Hb.
  - now apply pending_with_nameRef.
  - now apply pending_with_emailRef.
  - unfold handleConfirmBooking. cbv zeta.
    destruct (option_map JsString.trim (nameRef st)) as [n|];
      [|now apply pending_emit].
    destruct (option_map JsString.trim (emailRef st)) as [e|];
      [|now apply pending_emit].
    destruct (negb (JsString.truthy n) || negb (JsString.truthy e));
      [now apply pending_emit|].
    apply pending_emit, pending_setShowBooking, pending_setBookings; [|exact H].
    destruct H as [[_ _ Hsel Hb] _ _]. now constructor.
  - now apply pending_setShowBooking.
  - unfold onViewportChange, setViewport_with. now apply pending_setViewport.
Qed.

(** ** Between two events the state is settled *)

Lemma step_settled r ev st : settled st -> settled (step r ev st).
Proof.
  intros H. unfold step. apply commit_settled, handle_pending.
  now apply settled_pending.
Qed.

(** ** Writing the ledger and reading it back *)

Lemma json_of_number_exact x : json_exact x = true -> json_of_number x = JNumber x.
Proof.
  unfold json_exact, json_of_number. intros H. apply andb_prop in H as [Hf Hz].
  rewrite Hf. apply negb_true_iff in Hz. now rewrite Hz.
Qed.

Lemma destination_roundtrip d :
  exact_destination d = true ->
  destination_of_json (json_of_destination d) = Some d.
Proof.
  destruct d as [i n [la lo] sm]. unfold exact_destination. cbn [dest_ident coords fst snd].
  intros H. apply andb_prop in H as [H Hlo]. apply andb_prop in H as [Hi Hla].
  unfold json_of_destination. cbn [dest_ident dest_name coords summary fst snd].
  rewrite (json_of_number_exact la Hla), (json_of_number_exact lo Hlo).
  destruct i as [x|s]; cbn [json_of_dest_id].
  - now rewrite (json_of_number_exact x Hi).
  - reflexivity.
Qed.

Lemma booking_roundtrip h b :
  bd_dest (booking_view h b) <> None ->
  exact_booking (booking_view h b) = true ->
  booking_of_json (json_of_booking h b) = Some (booking_view h b).
Proof.
  unfold exact_booking, booking_view, json_of_booking.
  cbn [bd_id bd_dest]. intros Hsome H. apply andb_prop in H as [Hid Hd].
  rewrite (json_of_number_exact _ Hid).
  destruct (dest b) as [l|]; [|now elim Hsome].
  destruct (deref h l) as [d|]; [|now elim Hsome].
  pose proof (destination_roundtrip d Hd) as Hr.
  unfold booking_of_json. rewrite Hr. reflexivity.
Qed.

Lemma bookings_roundtrip h bs :
  Forall (fun b => bd_dest (booking_view h b) <> None) bs ->
  forallb (fun b => exact_booking (booking_view h b)) bs = true ->
  bookings_of_json (map (json_of_booking h) bs) = Some (map (booking_view h) bs).
Proof.
  induction 1 as [|b r Hs _ IH]; cbn [map bookings_of_json forallb]; [reflexivity|].
  intros H. apply andb_prop in H as [Hb Hr].
  rewrite (booking_roundtrip h b Hs Hb), (IH Hr). reflexivity.
Qed.

Lemma materialize_spec bs : forall h,
  exists ext,
    fst (materialize h bs) = h ++ ext
    /\ Forall (fun b => valid_ref (fst (materialize h bs)) (dest b)) (snd (materialize h bs))
    /\ map (booking_view (fst (materialize h bs))) (snd (materialize h bs)) = bs.
Proof.
  induction bs as [|b r IH]; intros h; simpl.
  - exists []. now rewrite app_nil_r.
  - destruct b as [i [dd|] n e d]; cbn [bd_dest bd_id bd_name bd_email bd_date].
    + destruct (IH (h ++ [dd])) as [ext [Hh [Hv Hm]]].
      destruct (materialize (h ++ [dd]) r) as [h2 r'] eqn:Em. cbn [fst snd] in *.
      exists ([dd] ++ ext). subst h2. rewrite <- app_assoc.
      assert (Hd : deref (h ++ [dd] ++ ext) (List.length h) = Some dd).
      { unfold deref. rewrite nth_error_app2 by lia. now rewrite Nat.sub_diag. }
      split; [reflexivity|]. split.
      * constructor; [|now rewrite <- app_assoc in Hv].
        cbn. eapply deref_Some_valid; eauto.
      * cbn [map]. rewrite <- app_assoc in Hm. rewrite Hm. f_equal.
        unfold booking_view. cbn [dest booking_id booking_name booking_email booking_date].
        now rewrite Hd.
    + destruct (IH h) as [ext [Hh [Hv Hm]]].
      destruct (materialize h r) as [h2 r'] eqn:Em. cbn [fst snd] in *.
      exists ext. split; [exact Hh|]. split.
      * constructor; [exact I|exact Hv].
      * cbn [map]. now rewrite Hm.
Qed.

Lemma initial_bookings_coherent saved h bs :
  initial_bookings saved = Some (h, bs) ->
  (exists ext, h = SAMPLE_DESTINATIONS ++ ext)
  /\ Forall (fun b => valid_ref h (dest b)) bs.
Proof.
  assert (Hempty : (exists ext, SAMPLE_DESTINATIONS = SAMPLE_DESTINATIONS ++ ext)
                   /\ Forall (fun b : Booking => valid_ref SAMPLE_DESTINATIONS (dest b)) []).
  { split; [exists []; now rewrite app_nil_r|constructor]. }
  unfold initial_bookings. destruct saved as [t|].
  - destruct (text_truthy t).
    + destruct (JSON_parse t) as [j|].
      * destruct j; try discriminate.
        destruct (bookings_of_json items) as [bds|]; [|discriminate].
        intros H. injection H as Hm.
        destruct (materialize_spec bds SAMPLE_DESTINATIONS) as [ext [Hh [Hv _]]].
        rewrite Hm in Hh, Hv. cbn [fst snd] in *. split; [now exists ext|exact Hv].
      * intros H. injection H as <- <-. exact Hempty.
    + intros H. injection H as <- <-. exact Hempty.
  - intros H. injection H as <- <-. exact Hempty.
Qed.

Lemma mount_settled r saved st : mount r saved = Some st -> settled st.
Proof.
  unfold mount. destruct (initial_bookings saved) as [[h bs]|] eqn:Ei; [|discriminate].
  intros H. injection H as <-.
  destruct (initial_bookings_coherent _ _ _ Ei) as [[ext He] Hv].
  unfold boot. apply commit_settled. split; [split|..]; cbn [heap results selected bookings
    persist_dep dirty elems_of valid_ref]; try exact I; try discriminate.
  - now exists ext.
  - now apply catalog_locs_valid with ext.
  - exact Hv.
Qed.

Lemma reachable_settled r st : reachable r st -> settled st.
Proof.
  induction 1 as [saved st Hm|ev st _ IH].
  - eapply mount_settled; eauto.
  - now apply step_settled.
Qed.

Lemma started_reachable r : reachable r (started r).
Proof. now apply reach_mount with None. Qed.

Lemma run_reachable r evs : forall st, reachable r st -> reachable r (run r evs st).
Proof.
  induction evs as [|ev evs IH]; intros st H; simpl; [exact H|].
  apply IH. now apply reach_step.
Qed.

Lemma commit_slots r st : slots (commit r st) = slots st.
Proof. unfold commit. destruct (dirty st); [apply render_slots|reflexivity]. Qed.

Lemma commit_bookings r st : bookings (commit r st) = bookings st.
Proof. pose proof (commit_slots r st) as H. from_slots H. Qed.

Lemma commit_heap r st : heap (commit r st) = heap st.
Proof. pose proof (commit_slots r st) as H. from_slots H. Qed.

Lemma commit_results r st : results (commit r st) = results st.
Proof. pose proof (commit_slots r st) as H. from_slots H. Qed.

Lemma commit_selected r st : selected (commit r st) = selected st.
Proof. pose proof (commit_slots r st) as H. from_slots H. Qed.

Lemma commit_viewport r st : viewport (commit r st) = viewport st.
Proof. pose proof (commit_slots r st) as H. from_slots H. Qed.

Lemma commit_query r st : query (commit r st) = query st.
Proof. pose proof (commit_slots r st) as H. from_slots H. Qed.

Lemma commit_inflight r st : inflight (commit r st) = inflight st.
Proof. pose proof (commit_slots r st) as H. from_slots H. Qed.

Lemma commit_clean r st : dirty st = false -> commit r st = st.
Proof. unfold commit. now intros ->. Qed.

(** Unfolds the setters and splits on their tests. *)
Ltac setters :=
  unfold setQuery, setResults, setSelected, setViewport_with, setViewport,
    setBookings, setShowBooking, emit;
  repeat match goal with
         | |- context [if ?c then _ else _] => destruct c eqn:?
         | |- context [match results ?s with _ => _ end] => destruct (results s) eqn:?
         end;
  cbn.

(** ** The booking ledger *)

Lemma handleConfirmBooking_cases now iso st :
  (handleConfirmBooking now iso st = emit (Alert "Please enter name and email") st
   /\ (forall n e, nameRef st = Some n -> emailRef st = Some e ->
       JsString.trim n = EmptyString \/ JsString.trim e = EmptyString))
  \/ (exists n e,
        nameRef st = Some n /\ emailRef st = Some e
        /\ JsString.trim n <> EmptyString /\ JsString.trim e <> EmptyString
        /\ handleConfirmBooking now iso st =
           emit (Alert "Booking successful! (mock)")
             (setShowBooking false
                (setBookings
                   (fun b => mkBooking now (selected st) (JsString.trim n)
                               (JsString.trim e) iso :: b) st))).
Proof.
  unfold handleConfirmBooking. cbv zeta.
  destruct (nameRef st) as [n|]; cbn [option_map];
    [|left; split; [reflexivity|discriminate]].
  destruct (emailRef st) as [e|]; cbn [option_map];
    [|left; split; [reflexivity|discriminate]].
  destruct (JsString.truthy (JsString.trim n)) eqn:Hn; cbn [negb orb].
  - destruct (JsString.truthy (JsString.trim e)) eqn:He; cbn [negb].
    + right. exists n, e. repeat split; try reflexivity.
      * now apply TrimFacts.truthy_true.
      * now apply TrimFacts.truthy_true.
    + left. split; [reflexivity|]. intros n' e' _ [= <-]. right.
      now apply TrimFacts.truthy_false.
  - left. split; [reflexivity|]. intros n' e' [= <-] _. left.
    now apply TrimFacts.truthy_false.
Qed.

(** C4. A booking submitted with a name or an email that is empty once
    trimmed (an input of white space only trims to the empty string,
    [TrimFacts.trim_all_white]) is rejected: the user is prompted by an
    alert, and that call is all that happens; no slot of the state changes,
    the ledger and the storage are as they were. *)
Theorem blank_contact_rejected r st now iso n e :
  reachable r st ->
  nameRef st = Some n -> emailRef st = Some e ->
  JsString.trim n = EmptyString \/ JsString.trim e = EmptyString ->
  step r (SubmitBooking now iso) st = emit (Alert "Please enter name and email") st
  /\ bookings (step r (SubmitBooking now iso) st) = bookings st
  /\ storage (step r (SubmitBooking now iso) st) = storage st.
Proof.
  intros Hr Hn He Hblank.
  assert (Hh : handleConfirmBooking now iso st
               = emit (Alert "Please enter name and email") st).
  { destruct (handleConfirmBooking_cases now iso st) as [[H _]|(n' & e' & Hn' & He' & Hnn & Hne & _)];
      [exact H|].
    rewrite Hn in Hn'. rewrite He in He'. injection Hn' as <-. injection He' as <-.
    destruct Hblank; contradiction. }
  assert (Hs : step r (SubmitBooking now iso) st
               = emit (Alert "Please enter name and email") st).
  { unfold step. cbn [handle]. rewrite Hh. apply commit_clean.
    cbn. now destruct (reachable_settled r st Hr). }
  rewrite Hs. now repeat split.
Qed.

Lemma blank_contact_rejected_witness :
  step Remount (SubmitBooking ada_clock ada_date) (blank_at_form Remount)
  = emit (Alert "Please enter name and email") (blank_at_form Remount)
  /\ bookings (step Remount (SubmitBooking ada_clock ada_date) (blank_at_form Remount))
     = bookings (blank_at_form Remount)
  /\ storage (step Remount (SubmitBooking ada_clock ada_date) (blank_at_form Remount))
     = storage (blank_at_form Remount).
Proof.
  apply (blank_contact_rejected Remount (blank_at_form Remount) ada_clock ada_date
           "   " "ada@example.com").
  - apply run_reachable, started_reachable.
  - reflexivity.
  - reflexivity.
  - left. reflexivity.
Defined.

Lemma step_submit_bookings r now iso st :
  bookings (step r (SubmitBooking now iso) st)
  = bookings (handleConfirmBooking now iso st).
Proof. unfold step. now rewrite commit_bookings. Qed.

Lemma created_bookings now iso n e st :
  bookings (emit (Alert "Booking successful! (mock)")
              (setShowBooking false
                 (setBookings
                    (fun b => mkBooking now (selected st) n e iso :: b) st)))
  = mkBooking now (selected st) n e iso :: bookings st.
Proof. setters; reflexivity. Qed.

(** C10. Whenever a submission creates a booking (the ledger changes), both
    inputs were there, the new booking is at the head of the ledger, and its
    name and email are the trimmed inputs: neither is empty, neither starts
    or ends with white space. *)
Theorem created_contact_is_trimmed r st now iso :
  bookings (step r (SubmitBooking now iso) st) <> bookings st ->
  exists n e,
    nameRef st = Some n /\ emailRef st = Some e
    /\ bookings (step r (SubmitBooking now iso) st)
       = mkBooking now (selected st) (JsString.trim n) (JsString.trim e) iso
         :: bookings st
    /\ clean (JsString.trim n) /\ clean (JsString.trim e).
Proof.
  rewrite step_submit_bookings. intros Hch.
  destruct (handleConfirmBooking_cases now iso st)
    as [[H _]|(n & e & Hn & He & Hnn & Hne & H)].
  - rewrite H in Hch. now elim Hch.
  - exists n, e. rewrite H, created_bookings.
    repeat split; try assumption; try reflexivity;
      now apply TrimFacts.trim_clean.
Qed.

Lemma created_contact_is_trimmed_witness :
  exists n e,
    nameRef (ada_at_form Remount) = Some n /\ emailRef (ada_at_form Remount) = Some e
    /\ bookings (step Remount (SubmitBooking ada_clock ada_date) (ada_at_form Remount))
       = mkBooking ada_clock (selected (ada_at_form Remount))
           (JsString.trim n) (JsString.trim e) ada_date
         :: bookings (ada_at_form Remount)
    /\ clean (JsString.trim n) /\ clean (JsString.trim e).
Proof.
  apply (created_contact_is_trimmed Remount (ada_at_form Remount) ada_clock ada_date).
  vm_compute. discriminate.
Defined.

Lemma ltb_not_strict_eq x y : PrimFloat.ltb x y = true -> strict_eq x y = false.
Proof.
  unfold strict_eq. rewrite ltb_spec, eqb_spec.
  unfold SpecFloat.SFltb, SpecFloat.SFeqb.
  destruct (SpecFloat.SFcompare (Prim2SF x) (Prim2SF y)) as [[| |]|];
    intros H; try discriminate; reflexivity.
Qed.

(** C6, as the code has it.  A successful creation builds a booking whose id
    is the clock reading [Date.now()] and puts it at the head of the ledger,
    the rest of which is kept in its order.  The id differs from the id of
    every other booking when the clock reading is later than all of them,
    and then a ledger that was most-recent-first remains so. *)
Theorem created_booking_heads_ledger r st now iso n e :
  nameRef st = Some n -> emailRef st = Some e ->
  JsString.trim n <> EmptyString -> JsString.trim e <> EmptyString ->
  exists b,
    bookings (step r (SubmitBooking now iso) st) = b :: bookings st
    /\ booking_id b = now
    /\ booking_date b = iso
    /\ (later_than_all now (bookings st) -> absent (booking_id b) (bookings st))
    /\ (later_than_all now (bookings st) -> newest_first (bookings st) ->
        newest_first (bookings (step r (SubmitBooking now iso) st))).
Proof.
  intros Hn He Hnn Hne. rewrite step_submit_bookings.
  destruct (handleConfirmBooking_cases now iso st)
    as [[_ H]|(n' & e' & Hn' & He' & _ & _ & H)].
  - destruct (H n e Hn He); contradiction.
  - rewrite H, created_bookings.
    eexists. split; [reflexivity|]. cbn [booking_id booking_date].
    repeat split; try assumption.
    intros Hl. unfold absent. eapply Forall_impl; [|exact Hl].
    intros b. apply ltb_not_strict_eq.
Qed.

Lemma created_booking_heads_ledger_witness :
  exists b0 b,
    bookings (second_form Remount) = [b0]
    /\ booking_id b0 = ada_clock
    /\ bookings (step Remount (SubmitBooking later_clock ada_date) (second_form Remount))
       = [b; b0]
    /\ booking_id b = later_clock
    /\ booking_date b = ada_date
    /\ absent (booking_id b) (bookings (second_form Remount))
    /\ newest_first
         (bookings (step Remount (SubmitBooking later_clock ada_date) (second_form Remount))).
Proof.
  assert (Hold : bookings (second_form Remount)
                 = [mkBooking ada_clock (Some 0) "Ada" "ada@example.com" ada_date])
    by reflexivity.
  assert (Hlater : later_than_all later_clock (bookings (second_form Remount))).
  { rewrite Hold. constructor; [reflexivity|constructor]. }
  assert (Hnf : newest_first (bookings (second_form Remount))).
  { rewrite Hold. split; [constructor|exact I]. }
  destruct (created_booking_heads_ledger Remount (second_form Remount)
              later_clock ada_date "Ada" "ada@example.com" eq_refl eq_refl)
    as (b & Hb & Hid & Hdate & Habs & Hnew).
  - vm_compute. discriminate.
  - vm_compute. discriminate.
  - exists (mkBooking ada_clock (Some 0) "Ada" "ada@example.com" ada_date), b.
    split; [exact Hold|]. split; [reflexivity|].
    split; [now rewrite Hb, Hold|]. split; [exact Hid|]. split; [exact Hdate|].
    split; [now apply Habs|now apply Hnew].
Defined.

(** C6, as the claim has it, fails: two bookings made at one clock reading
    have the same id.  Ada books Paris, then Tokyo, and the clock reads the
    same both times. *)
Lemma same_clock_same_id :
  exists b1 b2,
    bookings
      (run Remount
         [ClickBook 1; TypeName "Ada"; TypeEmail "ada@example.com";
          SubmitBooking ada_clock ada_date]
         (ada_booked Remount))
    = [b1; b2]
    /\ dest b1 = Some 1 /\ dest b2 = Some 0
    /\ strict_eq (booking_id b1) (booking_id b2) = true.
Proof.
  eexists. eexists. split; [vm_compute; reflexivity|].
  cbn [dest booking_id]. repeat split; reflexivity.
Qed.

(** ** Cancelling *)

Lemma absent_filter id bs :
  absent id (filter (fun x => negb (strict_eq (booking_id x) id)) bs).
Proof.
  apply Forall_forall. intros b Hb. apply filter_In in Hb as [_ Hb].
  now apply negb_true_iff in Hb.
Qed.

Lemma filter_absent id bs :
  absent id bs -> filter (fun x => negb (strict_eq (booking_id x) id)) bs = bs.
Proof.
  induction 1 as [|b r Hb _ IH]; simpl; [reflexivity|].
  rewrite Hb. simpl. now rewrite IH.
Qed.

(** C9. [cancelBooking] asks for confirmation first.  When the user
    declines, the question is all that happened.  When the user agrees,
    every booking whose id is the given one is removed, the others are kept
    in their order, and the storage holds the new ledger; when no booking
    has that id, the ledger is as it was. *)
Theorem cancel_needs_confirmation r st id answer :
  reachable r st ->
  (exists l, log (step r (ClickCancel id answer) st)
             = l ++ Confirm "Cancel this booking?" :: log st)
  /\ (if answer
      then bookings (step r (ClickCancel id answer) st)
           = filter (fun x => negb (strict_eq (booking_id x) id)) (bookings st)
           /\ absent id (bookings (step r (ClickCancel id answer) st))
      else step r (ClickCancel id answer) st
           = emit (Confirm "Cancel this booking?") st)
  /\ storage (step r (ClickCancel id answer) st)
     = Some (JSON_stringify (heap (step r (ClickCancel id answer) st))
               (bookings (step r (ClickCancel id answer) st)))
  /\ (absent id (bookings st) ->
      bookings (step r (ClickCancel id answer) st) = bookings st).
Proof.
  intros Hr. pose proof (reachable_settled r st Hr) as Hs.
  pose proof (step_settled r (ClickCancel id answer) st Hs) as Hs'.
  assert (Hb : bookings (step r (ClickCancel id answer) st)
               = if answer
                 then filter (fun x => negb (strict_eq (booking_id x) id)) (bookings st)
                 else bookings st).
  { unfold step. rewrite commit_bookings. cbn [handle]. unfold cancelBooking.
    cbv zeta. now destruct answer. }
  split; [|split; [|split]].
  - unfold step.
    destruct (commit_log_extends r (handle (ClickCancel id answer) st)) as [l Hl].
    exists l. rewrite Hl. f_equal. cbn [handle]. unfold cancelBooking. cbv zeta.
    now destruct answer.
  - destruct answer.
    + split; [exact Hb|]. rewrite Hb. apply absent_filter.
    + unfold step. cbn [handle]. unfold cancelBooking. cbv zeta. cbn [negb].
      apply commit_clean. cbn. now destruct Hs.
  - now destruct Hs'.
  - intros Ha. rewrite Hb. destruct answer; [|reflexivity]. now apply filter_absent.
Qed.

Lemma cancel_needs_confirmation_witness :
  (exists l, log (step Remount (ClickCancel ada_clock true) (ada_booked Remount))
             = l ++ Confirm "Cancel this booking?" :: log (ada_booked Remount))
  /\ (bookings (step Remount (ClickCancel ada_clock true) (ada_booked Remount))
      = filter (fun x => negb (strict_eq (booking_id x) ada_clock))
          (bookings (ada_booked Remount))
      /\ absent ada_clock
           (bookings (step Remount (ClickCancel ada_clock true) (ada_booked Remount))))
  /\ storage (step Remount (ClickCancel ada_clock true) (ada_booked Remount))
     = Some (JSON_stringify
               (heap (step Remount (ClickCancel ada_clock true) (ada_booked Remount)))
               (bookings (step Remount (ClickCancel ada_clock true) (ada_booked Remount))))
  /\ (absent ada_clock (bookings (ada_booked Remount)) ->
      bookings (step Remount (ClickCancel ada_clock true) (ada_booked Remount))
      = bookings (ada_booked Remount)).
Proof.
  apply (cancel_needs_confirmation Remount (ada_booked Remount) ada_clock true).
  apply reach_step, run_reachable, started_reachable.
Defined.

(** ** Persistence *)

Lemma boot_slots r saved h bs :
  heap (boot r saved h bs) = h /\ bookings (boot r saved h bs) = bs.
Proof. unfold boot. now rewrite commit_heap, commit_bookings. Qed.

(** ** Destination objects are never written *)

Ltac same_heap := exists []; rewrite app_nil_r; setters; reflexivity.

Lemma handle_heap ev st : exists ext, heap (handle ev st) = heap st ++ ext.
Proof.
  destruct ev; cbn [handle].
  - same_heap.
  - unfold handleSearch. cbv zeta.
    destruct (negb (JsString.truthy (JsString.trim (query st)))); [same_heap|].
    destruct (local_matches (heap st) (JsString.trim (query st))); [same_heap|].
    destruct (deref (heap st) l); same_heap.
  - destruct (inflight st); [same_heap|].
    unfold handleSearch_resume. destruct reply as [|data]; [same_heap|].
    unfold alloc.
    set (places := places_from 0 (match data with Some l => l | None => [] end)).
    exists places. destruct places; cbn [List.length seq]; setters; reflexivity.
  - unfold handleReset. same_heap.
  - destruct (deref (heap st) d); same_heap.
  - destruct (deref (heap st) d); [|same_heap]. unfold openBooking. same_heap.
  - unfold view_dest. destruct (deref (heap st) d); same_heap.
  - destruct (nth_error (bookings st) i) as [b|]; [|same_heap].
    destruct (dest b); [|same_heap].
    unfold view_dest. destruct (deref (heap st) l); same_heap.
  - unfold cancelBooking. cbv zeta. destruct (negb answer); same_heap.
  - same_heap.
  - same_heap.
  - unfold handleConfirmBooking. cbv zeta.
    destruct (option_map JsString.trim (nameRef st)); [|same_heap].
    destruct (option_map JsString.trim (emailRef st)); [|same_heap].
    destruct (negb (JsString.truthy s) || negb (JsString.truthy s0)); same_heap.
  - same_heap.
  - unfold onViewportChange. same_heap.
Qed.

Lemma step_heap r ev st : exists ext, heap (step r ev st) = heap st ++ ext.
Proof. unfold step. rewrite commit_heap. apply handle_heap. Qed.






(** ** The map and the viewport *)

Lemma spread_all prev v : spread prev v = v.
Proof. now destruct v. Qed.

Lemma commit_setViewport r st v :
  settled st ->
  same_deps (viewport st) v = false ->
  viewport (commit r (setViewport v st)) = v
  /\ log (commit r (setViewport v st))
     = MapSetView (latitude v) (longitude v) (zoom v) :: log st
  /\ commit r (commit r (setViewport v st)) = commit r (setViewport v st).
Proof.
  intros Hs Hne. destruct Hs as [_ Hvd Hpd _ _ _ _ _].
  split; [now rewrite commit_viewport|]. split.
  - unfold commit. cbn [dirty setViewport with_dirty]. rewrite render_log.
    assert (Hp : persist_effect_runs (setViewport v st) = false).
    { unfold persist_effect_runs. cbn. rewrite Hpd. now rewrite Nat.eqb_refl. }
    assert (Hm : map_effect_runs r (setViewport v st) = true).
    { unfold map_effect_runs. cbn. rewrite Hvd. destruct r; [reflexivity|].
      now rewrite Hne. }
    rewrite Hp, Hm. reflexivity.
  - apply commit_clean. unfold commit. cbn [dirty setViewport with_dirty].
    apply render_dirty.
Qed.

(** C1, as the code has it.  When the map reports the end of a gesture at
    a center or zoom other than the viewport's, the state takes the reported
    values, and the render that follows sends the map one "set view" command
    carrying those same values: the change is pushed back to the map.  Any
    change of the viewport to other values through [setViewport] sends
    exactly one "set view" command.  The render itself never calls
    [setViewport]: once it is done, nothing more happens until the next
    event. *)
Theorem viewport_change_sends_one_set_view r st v :
  reachable r st ->
  same_deps (viewport st) v = false ->
  (viewport (step r (MoveEnd v) st) = v
   /\ log (step r (MoveEnd v) st)
      = MapSetView (latitude v) (longitude v) (zoom v) :: log st
   /\ commit r (step r (MoveEnd v) st) = step r (MoveEnd v) st)
  /\ (viewport (commit r (setViewport v st)) = v
      /\ log (commit r (setViewport v st))
         = MapSetView (latitude v) (longitude v) (zoom v) :: log st
      /\ commit r (commit r (setViewport v st)) = commit r (setViewport v st)).
Proof.
  intros Hr Hne. pose proof (reachable_settled r st Hr) as Hs.
  pose proof (commit_setViewport r st v Hs Hne) as H.
  split; [|exact H].
  unfold step. cbn [handle]. unfold onViewportChange, setViewport_with.
  rewrite spread_all. exact H.
Qed.

Lemma viewport_change_sends_one_set_view_witness :
  (viewport (step KeepInstance (MoveEnd gesture_end) (started KeepInstance)) = gesture_end
   /\ log (step KeepInstance (MoveEnd gesture_end) (started KeepInstance))
      = MapSetView 10%float 20%float 5%float :: log (started KeepInstance)
   /\ commit KeepInstance (step KeepInstance (MoveEnd gesture_end) (started KeepInstance))
      = step KeepInstance (MoveEnd gesture_end) (started KeepInstance))
  /\ (viewport (commit KeepInstance (setViewport gesture_end (started KeepInstance)))
      = gesture_end
      /\ log (commit KeepInstance (setViewport gesture_end (started KeepInstance)))
         = MapSetView 10%float 20%float 5%float :: log (started KeepInstance)
      /\ commit KeepInstance
           (commit KeepInstance (setViewport gesture_end (started KeepInstance)))
         = commit KeepInstance (setViewport gesture_end (started KeepInstance))).
Proof.
  apply (viewport_change_sends_one_set_view KeepInstance (started KeepInstance) gesture_end).
  - apply started_reachable.
  - vm_compute. reflexivity.
Defined.

(** C1, as the claim has it, fails: the end of a gesture is answered with a
    "set view" command for that same change, whether [MapController] is
    remounted by the render or kept. *)
Lemma gesture_end_is_echoed :
  log (step Remount (MoveEnd gesture_end) (started Remount))
  = MapSetView 10%float 20%float 5%float :: log (started Remount)
  /\ log (step KeepInstance (MoveEnd gesture_end) (started KeepInstance))
     = MapSetView 10%float 20%float 5%float :: log (started KeepInstance).
Proof. split; vm_compute; reflexivity. Qed.

(** ** Searching *)

Lemma filter_deref_seq P (cat ext : list Destination) : forall pre,
  map (deref (pre ++ cat ++ ext))
    (filter (fun l => match deref (pre ++ cat ++ ext) l with
                      | Some d => P d
                      | None => false
                      end)
       (seq (List.length pre) (List.length cat)))
  = map Some (filter P cat).
Proof.
  induction cat as [|c cat IH]; intros pre; [reflexivity|].
  cbn [List.length seq filter].
  assert (Hc : deref (pre ++ (c :: cat) ++ ext) (List.length pre) = Some c).
  { unfold deref. rewrite nth_error_app2 by lia. now rewrite Nat.sub_diag. }
  rewrite Hc.
  assert (Hshift : pre ++ (c :: cat) ++ ext = (pre ++ [c]) ++ cat ++ ext).
  { now rewrite <- app_assoc. }
  assert (Hlen : S (List.length pre) = List.length (pre ++ [c])).
  { rewrite length_app. simpl. lia. }
  destruct (P c); cbn [map filter].
  - rewrite Hc. f_equal. rewrite Hshift, Hlen. apply IH.
  - rewrite Hshift, Hlen. apply IH.
Qed.

(** On a heap that starts with the catalog, the local search finds the
    catalog entries whose name contains the query, case aside, in the
    catalog's order. *)
Lemma local_matches_catalog h ext q :
  h = SAMPLE_DESTINATIONS ++ ext ->
  map (deref h) (local_matches h q) = map Some (filter (name_matches q) SAMPLE_DESTINATIONS).
Proof.
  intros ->. unfold local_matches, catalog_locs.
  exact (filter_deref_seq (name_matches q) SAMPLE_DESTINATIONS ext []).
Qed.

Lemma render_log_filter (keep : effect -> bool) r st :
  (forall a b c, keep (MapSetView a b c) = false) ->
  (forall k t, keep (StorageSetItem k t) = false) ->
  filter keep (log (render r st)) = filter keep (log st).
Proof.
  intros Hm Hp. rewrite render_log.
  destruct (persist_effect_runs st), (map_effect_runs r st);
    cbn [app filter]; rewrite ?Hm, ?Hp; reflexivity.
Qed.

Lemma commit_log_filter (keep : effect -> bool) r st :
  (forall a b c, keep (MapSetView a b c) = false) ->
  (forall k t, keep (StorageSetItem k t) = false) ->
  filter keep (log (commit r st)) = filter keep (log st).
Proof.
  intros Hm Hp. unfold commit. destruct (dirty st); [|reflexivity].
  now apply render_log_filter.
Qed.

Lemma commit_fetches r st :
  filter is_fetch (log (commit r st)) = filter is_fetch (log st).
Proof. now apply commit_log_filter. Qed.

Lemma commit_alerts r st :
  filter is_alert (log (commit r st)) = filter is_alert (log st).
Proof. now apply commit_log_filter. Qed.

Lemma handleSearch_local st l0 rest d0 :
  JsString.trim (query st) <> EmptyString ->
  local_matches (heap st) (JsString.trim (query st)) = l0 :: rest ->
  deref (heap st) l0 = Some d0 ->
  handleSearch st
  = setViewport (view_of d0 FOUND_ZOOM)
      (setSelected (Some l0) (setResults (FreshArray (l0 :: rest)) st)).
Proof.
  intros Hq Hl Hd. unfold handleSearch. cbv zeta.
  apply TrimFacts.truthy_true in Hq. rewrite Hq. cbn [negb].
  rewrite Hl, Hd. reflexivity.
Qed.

(** C2. A query that is not empty once trimmed and that some catalog names
    contain, case aside: the results are exactly those catalog entries, in
    the catalog's order; the geocoder is not called (no request is sent,
    none is awaited); the first match is selected; the viewport is at its
    coordinates, with zoom 6. *)
Theorem local_match_wins r st l0 rest :
  reachable r st ->
  JsString.trim (query st) <> EmptyString ->
  local_matches (heap st) (JsString.trim (query st)) = l0 :: rest ->
  elems_of (results (step r SubmitSearch st)) = l0 :: rest
  /\ map (deref (heap (step r SubmitSearch st))) (l0 :: rest)
     = map Some (filter (name_matches (JsString.trim (query st))) SAMPLE_DESTINATIONS)
  /\ filter is_fetch (log (step r SubmitSearch st)) = filter is_fetch (log st)
  /\ inflight (step r SubmitSearch st) = inflight st
  /\ selected (step r SubmitSearch st) = Some l0
  /\ exists d0,
       deref (heap st) l0 = Some d0
       /\ viewport (step r SubmitSearch st)
          = mkViewport (fst (coords d0)) (snd (coords d0)) 6%float.
Proof.
  intros Hr Hq Hl. pose proof (reachable_settled r st Hr) as Hs.
  destruct Hs as [_ _ _ _ [ext He] _ _ _].
  assert (Hd : exists d0, deref (heap st) l0 = Some d0).
  { pose proof (local_matches_valid (heap st) (JsString.trim (query st))) as Hv.
    rewrite Hl in Hv. inversion Hv as [|? ? H0 _]. unfold valid_loc in H0.
    unfold deref. destruct (nth_error (heap st) l0) eqn:E; [eauto|].
    apply nth_error_None in E. lia. }
  destruct Hd as [d0 Hd].
  unfold step. cbn [handle]. rewrite (handleSearch_local st l0 rest d0 Hq Hl Hd).
  rewrite commit_results, commit_heap, commit_fetches, commit_inflight,
    commit_selected, commit_viewport.
  repeat split.
  - setters; reflexivity.
  - replace (heap _) with (heap st) by (setters; reflexivity).
    rewrite <- Hl. now apply local_matches_catalog with ext.
  - setters; reflexivity.
  - setters; reflexivity.
  - unfold setViewport, setSelected. cbn [selected with_dirty with_viewport].
    destruct (same_object (Some l0) (selected (setResults (FreshArray (l0 :: rest)) st))) eqn:E.
    + cbn [same_object] in E.
      destruct (selected (setResults (FreshArray (l0 :: rest)) st)) as [x|]; [|discriminate].
      apply Nat.eqb_eq in E. now subst.
    + reflexivity.
  - exists d0. split; [exact Hd|]. reflexivity.
Qed.

Lemma local_match_wins_witness :
  elems_of (results (step Remount SubmitSearch (tokyo_typed Remount))) = [1]
  /\ map (deref (heap (step Remount SubmitSearch (tokyo_typed Remount)))) [1]
     = map Some (filter (name_matches (JsString.trim (query (tokyo_typed Remount))))
                   SAMPLE_DESTINATIONS)
  /\ filter is_fetch (log (step Remount SubmitSearch (tokyo_typed Remount)))
     = filter is_fetch (log (tokyo_typed Remount))
  /\ inflight (step Remount SubmitSearch (tokyo_typed Remount))
     = inflight (tokyo_typed Remount)
  /\ selected (step Remount SubmitSearch (tokyo_typed Remount)) = Some 1
  /\ exists d0,
       deref (heap (tokyo_typed Remount)) 1 = Some d0
       /\ viewport (step Remount SubmitSearch (tokyo_typed Remount))
          = mkViewport (fst (coords d0)) (snd (coords d0)) 6%float.
Proof.
  apply (local_match_wins Remount (tokyo_typed Remount) 1 []).
  - apply reach_step, started_reachable.
  - vm_compute. discriminate.
  - vm_compute. reflexivity.
Defined.

Lemma handleSearch_remote st :
  JsString.trim (query st) <> EmptyString ->
  local_matches (heap st) (JsString.trim (query st)) = [] ->
  handleSearch st
  = with_inflight (S (inflight st)) (emit (Fetch (JsString.trim (query st))) st).
Proof.
  intros Hq Hl. unfold handleSearch. cbv zeta.
  apply TrimFacts.truthy_true in Hq. rewrite Hq. cbn [negb]. now rewrite Hl.
Qed.

Lemma resume_no_places reply st :
  no_places reply = true ->
  elems_of (results (handleSearch_resume reply st)) = []
  /\ selected (handleSearch_resume reply st) = selected st
  /\ viewport (handleSearch_resume reply st) = viewport st
  /\ bookings (handleSearch_resume reply st) = bookings st
  /\ filter is_alert (log (handleSearch_resume reply st)) = filter is_alert (log st)
  /\ filter is_fetch (log (handleSearch_resume reply st)) = filter is_fetch (log st)
  /\ (reply = Rejected ->
      log (handleSearch_resume reply st) = ConsoleError "Geocoding error:" :: log st).
Proof.
  intros Hn. destruct reply as [|[[|p ps]|]]; try discriminate;
    unfold handleSearch_resume, alloc; cbn [places_from List.length seq];
    setters; repeat split; try reflexivity; intros; discriminate.
Qed.

Lemma reply_no_places r st1 n reply :
  inflight st1 = S n ->
  no_places reply = true ->
  elems_of (results (step r (GeocodeReply reply) st1)) = []
  /\ selected (step r (GeocodeReply reply) st1) = selected st1
  /\ viewport (step r (GeocodeReply reply) st1) = viewport st1
  /\ bookings (step r (GeocodeReply reply) st1) = bookings st1
  /\ filter is_fetch (log (step r (GeocodeReply reply) st1)) = filter is_fetch (log st1)
  /\ filter is_alert (log (step r (GeocodeReply reply) st1)) = filter is_alert (log st1)
  /\ (reply = Rejected ->
      In (ConsoleError "Geocoding error:") (log (step r (GeocodeReply reply) st1))).
Proof.
  intros Hi Hn. unfold step. cbn [handle]. rewrite Hi.
  destruct (resume_no_places reply (with_inflight n st1) Hn)
    as (Hres & Hsel & Hv & Hb & Ha & Hf & Hlog).
  rewrite commit_results, commit_selected, commit_viewport, commit_bookings,
    commit_fetches, commit_alerts.
  repeat split; try assumption.
  intros ->. destruct (commit_log_extends r
    (handleSearch_resume Rejected (with_inflight n st1))) as [l Hl'].
  rewrite Hl', (Hlog eq_refl). apply in_or_app. right. now left.
Qed.

(** C7. A query that is not empty once trimmed and that no catalog name
    contains: the search sends the geocoder one request and does nothing
    else.  When the request fails, or brings no place, the result list
    becomes empty; the selection, the viewport and the ledger are as before
    the search; no alert is raised and no second request is sent; a failure
    is written to the console and the application goes on. *)
Theorem remote_lookup_once r st reply :
  reachable r st ->
  JsString.trim (query st) <> EmptyString ->
  local_matches (heap st) (JsString.trim (query st)) = [] ->
  no_places reply = true ->
  step r SubmitSearch st
  = with_inflight (S (inflight st)) (emit (Fetch (JsString.trim (query st))) st)
  /\ elems_of (results (step r (GeocodeReply reply) (step r SubmitSearch st))) = []
  /\ selected (step r (GeocodeReply reply) (step r SubmitSearch st)) = selected st
  /\ viewport (step r (GeocodeReply reply) (step r SubmitSearch st)) = viewport st
  /\ bookings (step r (GeocodeReply reply) (step r SubmitSearch st)) = bookings st
  /\ filter is_fetch (log (step r (GeocodeReply reply) (step r SubmitSearch st)))
     = Fetch (JsString.trim (query st)) :: filter is_fetch (log st)
  /\ filter is_alert (log (step r (GeocodeReply reply) (step r SubmitSearch st)))
     = filter is_alert (log st)
  /\ (reply = Rejected ->
      In (ConsoleError "Geocoding error:")
         (log (step r (GeocodeReply reply) (step r SubmitSearch st))))
  /\ reachable r (step r (GeocodeReply reply) (step r SubmitSearch st)).
Proof.
  intros Hr Hq Hl Hn. pose proof (reachable_settled r st Hr) as Hs.
  assert (H1 : step r SubmitSearch st
               = with_inflight (S (inflight st))
                   (emit (Fetch (JsString.trim (query st))) st)).
  { unfold step. cbn [handle]. rewrite (handleSearch_remote st Hq Hl).
    apply commit_clean. cbn. now destruct Hs. }
  split; [exact H1|].
  destruct (reply_no_places r (step r SubmitSearch st) (inflight st) reply)
    as (Hres & Hsel & Hv & Hb & Hf & Ha & Hlog); [now rewrite H1|exact Hn|].
  rewrite Hres, Hsel, Hv, Hb, Hf, Ha. rewrite H1 at 1 2 3 4 5.
  repeat split; try reflexivity; try assumption.
  now apply reach_step, reach_step.
Qed.

Lemma remote_lookup_once_witness :
  step Remount SubmitSearch (nowhere_typed Remount)
  = with_inflight (S (inflight (nowhere_typed Remount)))
      (emit (Fetch (JsString.trim (query (nowhere_typed Remount)))) (nowhere_typed Remount))
  /\ elems_of (results (step Remount (GeocodeReply Rejected)
                          (step Remount SubmitSearch (nowhere_typed Remount)))) = []
  /\ selected (step Remount (GeocodeReply Rejected)
                 (step Remount SubmitSearch (nowhere_typed Remount)))
     = selected (nowhere_typed Remount)
  /\ viewport (step Remount (GeocodeReply Rejected)
                 (step Remount SubmitSearch (nowhere_typed Remount)))
     = viewport (nowhere_typed Remount)
  /\ bookings (step Remount (GeocodeReply Rejected)
                 (step Remount SubmitSearch (nowhere_typed Remount)))
     = bookings (nowhere_typed Remount)
  /\ filter is_fetch (log (step Remount (GeocodeReply Rejected)
                             (step Remount SubmitSearch (nowhere_typed Remount))))
     = Fetch (JsString.trim (query (nowhere_typed Remount)))
       :: filter is_fetch (log (nowhere_typed Remount))
  /\ filter is_alert (log (step Remount (GeocodeReply Rejected)
                             (step Remount SubmitSearch (nowhere_typed Remount))))
     = filter is_alert (log (nowhere_typed Remount))
  /\ (Rejected = Rejected ->
      In (ConsoleError "Geocoding error:")
         (log (step Remount (GeocodeReply Rejected)
                 (step Remount SubmitSearch (nowhere_typed Remount)))))
  /\ reachable Remount (step Remount (GeocodeReply Rejected)
                          (step Remount SubmitSearch (nowhere_typed Remount))).
Proof.
  apply (remote_lookup_once Remount (nowhere_typed Remount) Rejected).
  - apply reach_step, started_reachable.
  - vm_compute. discriminate.
  - vm_compute. reflexivity.
  - reflexivity.
Defined.

Lemma catalog_in_heap h ext :
  h = SAMPLE_DESTINATIONS ++ ext ->
  map (deref h) catalog_locs = map Some SAMPLE_DESTINATIONS.
Proof.
  intros ->. reflexivity.
Qed.

(** C8, as the code has it.  A query that is empty once trimmed (an input
    of white space only trims to the empty string): the search gives back the
    whole catalog, in its order, sends no request, and leaves the viewport
    where it is.  The Reset button, whatever the query, the results and the
    viewport are, empties the query, gives back the whole catalog and puts
    the viewport at the default: center (48.8566, 2.3522), zoom 2.5. *)
Theorem blank_query_shows_catalog r st st2 :
  reachable r st ->
  JsString.trim (query st) = EmptyString ->
  reachable r st2 ->
  (elems_of (results (step r SubmitSearch st)) = catalog_locs
   /\ map (deref (heap (step r SubmitSearch st))) catalog_locs
      = map Some SAMPLE_DESTINATIONS
   /\ filter is_fetch (log (step r SubmitSearch st)) = filter is_fetch (log st)
   /\ viewport (step r SubmitSearch st) = viewport st)
  /\ (query (step r ClickReset st2) = EmptyString
      /\ elems_of (results (step r ClickReset st2)) = catalog_locs
      /\ map (deref (heap (step r ClickReset st2))) catalog_locs
         = map Some SAMPLE_DESTINATIONS
      /\ viewport (step r ClickReset st2)
         = mkViewport 48.8566%float 2.3522%float 2.5%float).
Proof.
  intros Hr Hq Hr2.
  pose proof (reachable_settled r st Hr) as [_ _ _ _ [ext He] _ _ _].
  pose proof (reachable_settled r st2 Hr2) as [_ _ _ _ [ext2 He2] _ _ _].
  pose proof (catalog_in_heap (heap st) ext He) as Hcat.
  pose proof (catalog_in_heap (heap st2) ext2 He2) as Hcat2.
  split.
  - unfold step. cbn [handle]. unfold handleSearch. cbv zeta.
    apply TrimFacts.truthy_false in Hq. rewrite Hq. cbn [negb].
    rewrite commit_results, commit_heap, commit_fetches, commit_viewport,
      setResults_heap.
    repeat split; try exact Hcat; setters; try reflexivity;
      match goal with H : results _ = SampleArray |- _ => now rewrite H end.
  - unfold step. cbn [handle]. unfold handleReset.
    rewrite commit_query, commit_results, commit_heap, commit_viewport.
    cbn [heap setViewport with_dirty with_viewport].
    rewrite setResults_heap, setQuery_heap.
    repeat split; try exact Hcat2.
    + setters; try reflexivity;
        match goal with H : String.eqb _ _ = true |- _ =>
          apply String.eqb_eq in H; now rewrite <- H end.
    + setters; try reflexivity;
        match goal with H : results _ = SampleArray |- _ => cbn in H; now rewrite H end.
Qed.

Lemma blank_query_shows_catalog_witness :
  (elems_of (results (step Remount SubmitSearch (tokyo_then_cleared Remount)))
   = catalog_locs
   /\ map (deref (heap (step Remount SubmitSearch (tokyo_then_cleared Remount))))
        catalog_locs
      = map Some SAMPLE_DESTINATIONS
   /\ filter is_fetch (log (step Remount SubmitSearch (tokyo_then_cleared Remount)))
      = filter is_fetch (log (tokyo_then_cleared Remount))
   /\ viewport (step Remount SubmitSearch (tokyo_then_cleared Remount))
      = viewport (tokyo_then_cleared Remount))
  /\ (query (step Remount ClickReset (tokyo_found Remount)) = EmptyString
      /\ elems_of (results (step Remount ClickReset (tokyo_found Remount)))
         = catalog_locs
      /\ map (deref (heap (step Remount ClickReset (tokyo_found Remount))))
           catalog_locs
         = map Some SAMPLE_DESTINATIONS
      /\ viewport (step Remount ClickReset (tokyo_found Remount))
         = mkViewport 48.8566%float 2.3522%float 2.5%float).
Proof.
  apply (blank_query_shows_catalog Remount (tokyo_then_cleared Remount)
           (tokyo_found Remount)).
  - apply run_reachable, started_reachable.
  - reflexivity.
  - apply run_reachable, started_reachable.
Defined.

(** C8, as the claim has it, fails: emptying the search box, and searching
    with it empty, leave the viewport on Tokyo at zoom 6. *)
Lemma cleared_query_keeps_viewport :
  query (tokyo_then_cleared Remount) = EmptyString
  /\ viewport (tokyo_then_cleared Remount)
     = mkViewport 35.6895%float 139.6917%float 6%float
  /\ elems_of (results (step Remount SubmitSearch (tokyo_then_cleared Remount)))
     = catalog_locs
  /\ viewport (step Remount SubmitSearch (tokyo_then_cleared Remount))
     = mkViewport 35.6895%float 139.6917%float 6%float
  /\ same_deps (viewport (step Remount SubmitSearch (tokyo_then_cleared Remount)))
       DEFAULT_VIEWPORT = false.
Proof. repeat split; vm_compute; reflexivity. Qed.


(** * Further properties *)

(** ** The geocoder's places *)

Lemma places_from_nth data : forall i k,
  nth_error (places_from i data) k = option_map (geocoded (i + k)) (nth_error data k).
Proof.
  induction data as [|p r IH]; intros i k.
  - now destruct k.
  - destruct k as [|k]; cbn [places_from nth_error option_map].
    + now rewrite Nat.add_0_r.
    + rewrite IH. now rewrite Nat.add_succ_r.
Qed.

Lemma places_from_length data : forall i,
  List.length (places_from i data) = List.length data.
Proof.
  induction data as [|p r IH]; intros i; cbn [places_from List.length];
    [reflexivity|]. now rewrite IH.
Qed.

Lemma of_index_inj i j : JsString.of_index i = JsString.of_index j -> i = j.
Proof.
  unfold JsString.of_index. intros H.
  assert (Hu : Some (Nat.to_uint i) = Some (Nat.to_uint j)).
  { rewrite <- (NilEmpty.usu (Nat.to_uint i)), <- (NilEmpty.usu (Nat.to_uint j)).
    now rewrite H. }
  injection Hu as Hu.
  rewrite <- (Unsigned.of_to i), <- (Unsigned.of_to j). now rewrite Hu.
Qed.

Lemma places_from_ids data : forall i,
  map dest_ident (places_from i data)
  = map (fun k => IdStr ("osm-" ++ JsString.of_index k)%string)
      (seq i (List.length data)).
Proof.
  induction data as [|p r IH]; intros i; cbn [places_from map List.length seq];
    [reflexivity|]. now rewrite IH.
Qed.

Lemma NoDup_map_inj {A B} (f : A -> B) l :
  (forall a b, f a = f b -> a = b) -> NoDup l -> NoDup (map f l).
Proof.
  intros Hf. induction 1 as [|a l Ha _ IH]; cbn [map]; constructor; [|exact IH].
  rewrite in_map_iff. intros [b [Hb Hin]]. apply Hf in Hb. now subst.
Qed.

Lemma places_from_NoDup data i : NoDup (map dest_ident (places_from i data)).
Proof.
  rewrite places_from_ids. apply NoDup_map_inj; [|apply seq_NoDup].
  intros a b H. injection H as H. now apply of_index_inj.
Qed.

Lemma deref_alloc h ds k :
  k < List.length ds -> deref (h ++ ds) (List.length h + k) = nth_error ds k.
Proof.
  intros _. unfold deref. rewrite nth_error_app2 by lia.
  f_equal. lia.
Qed.

Lemma map_deref_alloc h ds :
  map (deref (h ++ ds)) (seq (List.length h) (List.length ds)) = map Some ds.
Proof.
  revert h. induction ds as [|d ds IH]; intros h; [reflexivity|].
  cbn [List.length seq map]. f_equal.
  - unfold deref. rewrite nth_error_app2 by lia. now rewrite Nat.sub_diag.
  - replace (h ++ d :: ds) with ((h ++ [d]) ++ ds) by now rewrite <- app_assoc.
    replace (S (List.length h)) with (List.length (h ++ [d]))
      by (rewrite length_app; simpl; lia).
    apply IH.
Qed.

(** What the handler leaves when the reply brings places. *)
Lemma resume_places st data :
  heap (handleSearch_resume (Resolved data) st)
  = heap st ++ places_from 0 (match data with Some l => l | None => [] end)
  /\ elems_of (results (handleSearch_resume (Resolved data) st))
     = seq (List.length (heap st))
         (List.length (match data with Some l => l | None => [] end))
  /\ bookings (handleSearch_resume (Resolved data) st) = bookings st
  /\ inflight (handleSearch_resume (Resolved data) st) = inflight st.
Proof.
  unfold handleSearch_resume, alloc.
  rewrite places_from_length.
  destruct (places_from 0 (match data with Some l => l | None => [] end)) eqn:Ep;
    destruct (match data with Some l => l | None => [] end) eqn:Ed;
    cbn [List.length seq]; try discriminate; setters; repeat split; reflexivity.
Qed.

Lemma resume_first st p0 ps :
  selected (handleSearch_resume (Resolved (Some (p0 :: ps))) st)
  = Some (List.length (heap st))
  /\ viewport (handleSearch_resume (Resolved (Some (p0 :: ps))) st)
     = mkViewport (lat p0) (lon p0) 6%float.
Proof.
  unfold handleSearch_resume, alloc. cbn [places_from List.length seq].
  unfold setViewport, setSelected. split; [|reflexivity].
  cbn [selected with_dirty with_viewport].
  match goal with |- context [if ?c then _ else _] => destruct c eqn:E end;
    [|reflexivity].
  unfold same_object in E.
  match type of E with
  | match ?x with _ => _ end = true => destruct x as [y|]; [|discriminate]
  end.
  apply Nat.eqb_eq in E. now subst.
Qed.

(** X1. When the awaited reply brings records whose latitudes and
    longitudes are finite numbers, the result list is replaced by one new
    object per record, in the reply's order: the [k]-th has the id "osm-k",
    the record's display name as name and as summary, and the parsed latitude
    and longitude as coordinates.  This happens whatever the query or the
    results are by then.  The first place is selected and the viewport is put
    on it at zoom 6; the ledger is untouched. *)
Theorem geocoded_places_replace_results r st n data k p :
  inflight st = S n ->
  forallb well_located data = true ->
  nth_error data k = Some p ->
  List.length (elems_of (results (step r (GeocodeReply (Resolved (Some data))) st)))
  = List.length data
  /\ (exists l,
        nth_error (elems_of (results (step r (GeocodeReply (Resolved (Some data))) st))) k
        = Some l
        /\ List.length (heap st) <= l
        /\ deref (heap (step r (GeocodeReply (Resolved (Some data))) st)) l
           = Some (geocoded k p))
  /\ (exists p0 l0,
        nth_error data 0 = Some p0
        /\ nth_error (elems_of (results (step r (GeocodeReply (Resolved (Some data))) st))) 0
           = Some l0
        /\ selected (step r (GeocodeReply (Resolved (Some data))) st) = Some l0
        /\ viewport (step r (GeocodeReply (Resolved (Some data))) st)
           = mkViewport (lat p0) (lon p0) 6%float)
  /\ bookings (step r (GeocodeReply (Resolved (Some data))) st) = bookings st
  /\ inflight (step r (GeocodeReply (Resolved (Some data))) st) = n.
Proof.
  intros Hi _ Hk. unfold step. cbn [handle]. rewrite Hi.
  rewrite commit_results, commit_heap, commit_selected, commit_viewport,
    commit_bookings, commit_inflight.
  destruct (resume_places (with_inflight n st) (Some data)) as (Hh & Hr & Hb & Hin).
  cbn [heap with_inflight bookings inflight] in Hh, Hr, Hb, Hin.
  rewrite Hh, Hr, Hb, Hin. rewrite length_seq.
  assert (Hlt : k < List.length data) by (apply nth_error_Some; congruence).
  split; [reflexivity|]. split; [|split; [|now split]].
  - exists (List.length (heap st) + k). split; [|split; [lia|]].
    + rewrite nth_error_seq. apply Nat.ltb_lt in Hlt. now rewrite Hlt.
    + rewrite deref_alloc by now rewrite places_from_length.
      rewrite places_from_nth, Hk. reflexivity.
  - destruct data as [|p0 ps]; [now destruct k|].
    destruct (resume_first (with_inflight n st) p0 ps) as [Hsel Hv].
    cbn [heap with_inflight] in Hsel.
    exists p0, (List.length (heap st)). rewrite Hsel, Hv. now repeat split.
Qed.

Lemma geocoded_places_replace_results_witness :
  List.length
    (elems_of (results (step Remount
       (GeocodeReply (Resolved (Some [mkOsmRecord "Atlantis" 31%float (-24)%float])))
       (step Remount SubmitSearch (nowhere_typed Remount)))))
  = List.length [mkOsmRecord "Atlantis" 31%float (-24)%float]
  /\ (exists l,
        nth_error
          (elems_of (results (step Remount
             (GeocodeReply (Resolved (Some [mkOsmRecord "Atlantis" 31%float (-24)%float])))
             (step Remount SubmitSearch (nowhere_typed Remount))))) 0
        = Some l
        /\ List.length (heap (step Remount SubmitSearch (nowhere_typed Remount))) <= l
        /\ deref
             (heap (step Remount
                (GeocodeReply (Resolved (Some [mkOsmRecord "Atlantis" 31%float (-24)%float])))
                (step Remount SubmitSearch (nowhere_typed Remount)))) l
           = Some (geocoded 0 (mkOsmRecord "Atlantis" 31%float (-24)%float)))
  /\ (exists p0 l0,
        nth_error [mkOsmRecord "Atlantis" 31%float (-24)%float] 0 = Some p0
        /\ nth_error
             (elems_of (results (step Remount
                (GeocodeReply (Resolved (Some [mkOsmRecord "Atlantis" 31%float (-24)%float])))
                (step Remount SubmitSearch (nowhere_typed Remount))))) 0
           = Some l0
        /\ selected (step Remount
             (GeocodeReply (Resolved (Some [mkOsmRecord "Atlantis" 31%float (-24)%float])))
             (step Remount SubmitSearch (nowhere_typed Remount))) = Some l0
        /\ viewport (step Remount
             (GeocodeReply (Resolved (Some [mkOsmRecord "Atlantis" 31%float (-24)%float])))
             (step Remount SubmitSearch (nowhere_typed Remount)))
           = mkViewport (lat p0) (lon p0) 6%float)
  /\ bookings (step Remount
       (GeocodeReply (Resolved (Some [mkOsmRecord "Atlantis" 31%float (-24)%float])))
       (step Remount SubmitSearch (nowhere_typed Remount)))
     = bookings (step Remount SubmitSearch (nowhere_typed Remount))
  /\ inflight (step Remount
       (GeocodeReply (Resolved (Some [mkOsmRecord "Atlantis" 31%float (-24)%float])))
       (step Remount SubmitSearch (nowhere_typed Remount))) = 0.
Proof.
  apply (geocoded_places_replace_results Remount
           (step Remount SubmitSearch (nowhere_typed Remount)) 0
           [mkOsmRecord "Atlantis" 31%float (-24)%float] 0
           (mkOsmRecord "Atlantis" 31%float (-24)%float)).
  - reflexivity.
  - reflexivity.
  - reflexivity.
Defined.

(** ** The result list is keyed *)

Lemma float_neq x y : PrimFloat.Leibniz.eqb x y = false -> x <> y.
Proof.
  intros H E. subst y.
  assert (Ht : PrimFloat.Leibniz.eqb x x = true) by now apply Leibniz.eqb_spec.
  congruence.
Qed.

Lemma NoDup_map_filter {A B} (f : A -> B) (P : A -> bool) l :
  NoDup (map f l) -> NoDup (map f (filter P l)).
Proof.
  induction l as [|a l IH]; cbn [map filter]; [trivial|].
  intros H. inversion H as [|? ? Hn Hd]; subst.
  destruct (P a); cbn [map]; [|now apply IH].
  constructor; [|now apply IH].
  intros Hin. apply Hn. apply in_map_iff in Hin as [b [Hb Hin]].
  apply filter_In in Hin as [Hin _]. apply in_map_iff. now exists b.
Qed.

Lemma catalog_keyed ext :
  NoDup (map (id_at (SAMPLE_DESTINATIONS ++ ext)) catalog_locs).
Proof.
  cbn.
  repeat constructor; cbn; intros H;
    repeat match goal with
           | H : _ \/ _ |- _ => destruct H as [H|H]
           | H : False |- _ => exact H
           | H : Some (IdNum ?a) = Some (IdNum ?b) |- _ =>
               apply (f_equal (fun o => match o with
                                        | Some (IdNum x) => x
                                        | _ => a
                                        end)) in H;
               change (a = b) in H; revert H; apply float_neq; reflexivity
           end.
Qed.

Lemma id_at_app h ext ls :
  Forall (valid_loc h) ls -> map (id_at (h ++ ext)) ls = map (id_at h) ls.
Proof.
  intros H. apply map_ext_in. intros l Hl. unfold id_at.
  rewrite Forall_forall in H. now rewrite deref_app_valid by now apply H.
Qed.

Lemma keyed_same st s1 :
  settled st -> keyed st ->
  (exists ext, heap s1 = heap st ++ ext) -> results s1 = results st ->
  keyed s1.
Proof.
  intros Hs Hk [ext He] Hr. unfold keyed. rewrite He, Hr.
  rewrite id_at_app; [exact Hk|]. now destruct Hs.
Qed.

Lemma handle_keyed ev st : settled st -> keyed st -> keyed (handle ev st).
Proof.
  intros Hs Hk.
  pose proof Hs as [_ _ _ _ [ext0 He0] _ _ _].
  assert (Hcat : forall s1, heap s1 = heap st -> results s1 = SampleArray -> keyed s1).
  { intros s1 Hh Hr. unfold keyed. rewrite Hh, Hr, He0. apply catalog_keyed. }
  destruct ev;
    try (apply (keyed_same st); [exact Hs|exact Hk|apply handle_heap|];
         cbn [handle]; unfold openBooking, view_dest, cancelBooking,
           handleConfirmBooking, onViewportChange;
         repeat match goal with
                | |- context [match ?x with _ => _ end] =>
                    lazymatch x with
                    | results _ => fail
                    | _ => destruct x
                    end
                end; setters; reflexivity).
  - (* the search form *)
    cbn [handle]. unfold handleSearch. cbv zeta.
    destruct (negb (JsString.truthy (JsString.trim (query st)))).
    + unfold setResults. destruct (results st) eqn:Er.
      * exact Hk.
      * now apply Hcat.
    + destruct (local_matches (heap st) (JsString.trim (query st))) as [|l0 rest] eqn:El.
      * apply (keyed_same st); auto. exists []. now rewrite app_nil_r.
      * destruct (deref (heap st) l0); [|exact Hk].
        unfold keyed.
        replace (heap _) with (heap st) by (setters; reflexivity).
        replace (elems_of _) with (l0 :: rest) by (setters; reflexivity).
        rewrite <- El. unfold local_matches. apply NoDup_map_filter.
        rewrite He0. apply catalog_keyed.
  - (* the reply *)
    cbn [handle]. destruct (inflight st) as [|n]; [exact Hk|].
    destruct reply as [|data].
    + unfold keyed. replace (elems_of _) with (@nil loc) by (setters; reflexivity).
      constructor.
    + destruct (resume_places (with_inflight n st) data) as (Hh & Hr & _).
      unfold keyed. rewrite Hh, Hr. cbn [heap with_inflight].
      rewrite <- (places_from_length _ 0).
      unfold id_at.
      rewrite <- (map_map (deref _) (option_map dest_ident)).
      rewrite map_deref_alloc, map_map. cbn [option_map].
      rewrite <- (map_map dest_ident Some).
      apply NoDup_map_inj; [intros a b [= H]; exact H|apply places_from_NoDup].
  - (* Reset *)
    cbn [handle]. unfold handleReset, setViewport.
    unfold keyed. cbn [heap results with_dirty with_viewport].
    rewrite setResults_heap, setQuery_heap.
    unfold setResults. destruct (results (setQuery "" st)) eqn:Er.
    + rewrite Er. rewrite He0. apply catalog_keyed.
    + cbn [results with_dirty with_results elems_of]. rewrite He0. apply catalog_keyed.
Qed.

(** X2. In every state the application goes through, the entries of the
    result list have pairwise different ids: the catalog's after a local
    search or a reset, "osm-0", "osm-1", ... after a reply of the geocoder. *)
Theorem result_ids_are_distinct r st :
  reachable r st -> NoDup (map (id_at (heap st)) (elems_of (results st))).
Proof.
  induction 1 as [saved st Hm|ev st Hr IH].
  - pose proof (mount_settled r saved st Hm) as [_ _ _ _ [ext He] _ _ _].
    unfold mount in Hm. destruct (initial_bookings saved) as [[h bs]|]; [|discriminate].
    injection Hm as <-. unfold boot in *. rewrite commit_heap in He.
    rewrite commit_heap, commit_results. cbn [heap results elems_of] in *.
    rewrite He. apply catalog_keyed.
  - pose proof (reachable_settled r st Hr) as Hs.
    pose proof (handle_keyed ev st Hs IH) as Hk.
    unfold step. rewrite commit_heap, commit_results. exact Hk.
Qed.

Lemma result_ids_are_distinct_witness :
  NoDup
    (map (id_at (heap (run Remount
                         [SubmitSearch;
                          GeocodeReply (Resolved (Some [mkOsmRecord "Atlantis" 31%float (-24)%float;
                                                        mkOsmRecord "Atlantis, FL" 26%float (-80)%float]))]
                         (nowhere_typed Remount))))
       (elems_of (results (run Remount
                         [SubmitSearch;
                          GeocodeReply (Resolved (Some [mkOsmRecord "Atlantis" 31%float (-24)%float;
                                                        mkOsmRecord "Atlantis, FL" 26%float (-80)%float]))]
                         (nowhere_typed Remount))))).
Proof.
  apply (result_ids_are_distinct Remount).
  apply run_reachable, reach_step, started_reachable.
Defined.

(** ** The booking modal *)

Lemma render_refs r st :
  nameRef (render r st) = mount_ref (modal_visible st) (nameRef st)
  /\ emailRef (render r st) = mount_ref (modal_visible st) (emailRef st)
  /\ modal_visible (render r st) = modal_visible st.
Proof.
  assert (Hp : forall s, nameRef (persist_effect s) = nameRef s
                         /\ emailRef (persist_effect s) = emailRef s).
  { intros s. unfold persist_effect. now destruct (persist_effect_runs s). }
  assert (Hm : forall s, nameRef (map_effect r s) = nameRef s
                         /\ emailRef (map_effect r s) = emailRef s).
  { intros s. unfold map_effect. cbv zeta. now destruct (map_effect_runs r s). }
  destruct (Hp (map_effect r (mount_inputs st))) as [Hp1 Hp2].
  destruct (Hm (mount_inputs st)) as [Hm1 Hm2].
  split; [|split].
  - change (nameRef (persist_effect (map_effect r (mount_inputs st)))
            = mount_ref (modal_visible st) (nameRef st)).
    now rewrite Hp1, Hm1.
  - change (emailRef (persist_effect (map_effect r (mount_inputs st)))
            = mount_ref (modal_visible st) (emailRef st)).
    now rewrite Hp2, Hm2.
  - unfold modal_visible. now rewrite render_showBooking, render_selected.
Qed.

Lemma mounted_mount_ref v o : mounted (mount_ref v o) = v.
Proof. now destruct v, o. Qed.

Lemma render_inputs r st : inputs_follow_modal (render r st).
Proof.
  destruct (render_refs r st) as (Hn & He & Hv).
  unfold inputs_follow_modal. rewrite Hn, He, Hv, !mounted_mount_ref. now split.
Qed.

Lemma mounted_option_map (f : string -> string) o : mounted (option_map f o) = mounted o.
Proof. now destruct o. Qed.

(** A handler that asks for no render leaves the modal and its inputs in
    place. *)
Lemma handle_clean_inputs ev st :
  dirty st = false -> dirty (handle ev st) = false ->
  modal_visible (handle ev st) = modal_visible st
  /\ mounted (nameRef (handle ev st)) = mounted (nameRef st)
  /\ mounted (emailRef (handle ev st)) = mounted (emailRef st).
Proof.
  intros Hd. unfold modal_visible.
  destruct ev; cbn [handle];
    unfold handleSearch, handleSearch_resume, alloc, handleReset, openBooking,
      view_dest, cancelBooking, handleConfirmBooking, onViewportChange;
    cbv zeta;
    repeat match goal with
           | |- context [match ?x with _ => _ end] =>
               lazymatch x with
               | results _ => fail
               | selected _ => fail
               | nameRef _ => fail
               | emailRef _ => fail
               | _ => destruct x
               end
           end;
    unfold setQuery, setResults, setSelected, setViewport_with, setViewport,
      setBookings, setShowBooking, emit;
    repeat match goal with
           | |- context [if ?c then _ else _] => destruct c eqn:?
           | |- context [match results ?s with _ => _ end] => destruct (results s)
           end;
    cbn in *; rewrite ?mounted_option_map; intros; try discriminate;
    try congruence; auto.
Qed.

Lemma step_inputs r ev st :
  settled st -> inputs_follow_modal st -> inputs_follow_modal (step r ev st).
Proof.
  intros Hs [Hn He]. unfold step, commit.
  destruct (dirty (handle ev st)) eqn:Hd; [apply render_inputs|].
  destruct (handle_clean_inputs ev st) as (Hv & Hn' & He'); auto.
  { now destruct Hs. }
  unfold inputs_follow_modal. now rewrite Hv, Hn', He'.
Qed.

Lemma reachable_inputs r st : reachable r st -> inputs_follow_modal st.
Proof.
  induction 1 as [saved st Hm|ev st Hr IH].
  - unfold mount in Hm. destruct (initial_bookings saved) as [[h bs]|]; [|discriminate].
    injection Hm as <-. unfold boot, commit. cbn [dirty]. apply render_inputs.
  - apply step_inputs; [now apply reachable_settled with r|exact IH].
Qed.

Lemma slots_showBooking r st : showBooking (commit r st) = showBooking st.
Proof. pose proof (commit_slots r st) as H. from_slots H. Qed.

Lemma setShowBooking_get b st : showBooking (setShowBooking b st) = b.
Proof.
  unfold setShowBooking. destruct (Bool.eqb b (showBooking st)) eqn:E; [|reflexivity].
  symmetry. now apply Bool.eqb_prop.
Qed.

Lemma setSelected_get d st : selected (setSelected d st) = d.
Proof.
  unfold setSelected. destruct (same_object d (selected st)) eqn:E; [|reflexivity].
  unfold same_object in E. destruct d as [x|], (selected st) as [y|];
    try discriminate; [|reflexivity].
  apply Nat.eqb_eq in E. now subst.
Qed.

Lemma setShowBooking_frame b st :
  selected (setShowBooking b st) = selected st
  /\ nameRef (setShowBooking b st) = nameRef st
  /\ emailRef (setShowBooking b st) = emailRef st
  /\ viewport (setShowBooking b st) = viewport st
  /\ results (setShowBooking b st) = results st
  /\ bookings (setShowBooking b st) = bookings st
  /\ log (setShowBooking b st) = log st.
Proof. unfold setShowBooking. now destruct (Bool.eqb b (showBooking st)). Qed.

Lemma setSelected_frame d st :
  showBooking (setSelected d st) = showBooking st
  /\ nameRef (setSelected d st) = nameRef st
  /\ emailRef (setSelected d st) = emailRef st
  /\ viewport (setSelected d st) = viewport st
  /\ results (setSelected d st) = results st
  /\ bookings (setSelected d st) = bookings st
  /\ log (setSelected d st) = log st.
Proof. unfold setSelected. now destruct (same_object d (selected st)). Qed.

Lemma openBooking_slots d st :
  selected (openBooking d st) = Some d
  /\ showBooking (openBooking d st) = true
  /\ nameRef (openBooking d st) = option_map (fun _ => EmptyString) (nameRef st)
  /\ emailRef (openBooking d st) = option_map (fun _ => EmptyString) (emailRef st)
  /\ viewport (openBooking d st) = viewport st
  /\ results (openBooking d st) = results st
  /\ bookings (openBooking d st) = bookings st.
Proof.
  unfold openBooking. cbv zeta.
  cbn [selected showBooking nameRef emailRef viewport results bookings
       with_emailRef with_nameRef].
  destruct (setShowBooking_frame true (setSelected (Some d) st))
    as (-> & -> & -> & -> & -> & -> & _).
  destruct (setSelected_frame (Some d) st) as (_ & -> & -> & -> & -> & -> & _).
  rewrite setShowBooking_get, setSelected_get. now repeat split.
Qed.

Lemma blank_when_mounted v o :
  mounted o = v -> v = true ->
  option_map (fun _ : string => EmptyString) o = Some EmptyString.
Proof. destruct o; cbn; intros; subst; [reflexivity|discriminate]. Qed.

(** X3. Book on a destination that is shown selects it and opens the booking
    modal with both inputs empty, whatever was typed before and whether the
    modal was open or not; the viewport, the results and the ledger are as
    they were. *)
Theorem book_opens_an_empty_form r st d dd :
  reachable r st ->
  deref (heap st) d = Some dd ->
  selected (step r (ClickBook d) st) = Some d
  /\ showBooking (step r (ClickBook d) st) = true
  /\ nameRef (step r (ClickBook d) st) = Some EmptyString
  /\ emailRef (step r (ClickBook d) st) = Some EmptyString
  /\ viewport (step r (ClickBook d) st) = viewport st
  /\ results (step r (ClickBook d) st) = results st
  /\ bookings (step r (ClickBook d) st) = bookings st.
Proof.
  intros Hr Hd. pose proof (reachable_settled r st Hr) as Hs.
  destruct (reachable_inputs r st Hr) as [Hn He].
  assert (Hh : handle (ClickBook d) st = openBooking d st).
  { cbn [handle]. now rewrite Hd. }
  destruct (openBooking_slots d st) as (Hsel & Hsh & Hnr & Her & Hv & Hres & Hb).
  unfold step.
  rewrite commit_selected, commit_viewport, commit_results, commit_bookings,
    (slots_showBooking r), Hh.
  repeat split; try assumption.
  - unfold commit. destruct (dirty (openBooking d st)) eqn:Hdirty.
    + destruct (render_refs r (openBooking d st)) as (-> & _ & _).
      unfold modal_visible. rewrite Hsh, Hsel, Hnr. now destruct (nameRef st).
    + destruct (handle_clean_inputs (ClickBook d) st) as (Hmv & _ & _);
        [now destruct Hs|now rewrite Hh|].
      rewrite Hh in Hmv. unfold modal_visible at 1 in Hmv. rewrite Hsh, Hsel in Hmv.
      rewrite Hnr. now apply blank_when_mounted with (modal_visible st).
  - unfold commit. destruct (dirty (openBooking d st)) eqn:Hdirty.
    + destruct (render_refs r (openBooking d st)) as (_ & -> & _).
      unfold modal_visible. rewrite Hsh, Hsel, Her. now destruct (emailRef st).
    + destruct (handle_clean_inputs (ClickBook d) st) as (Hmv & _ & _);
        [now destruct Hs|now rewrite Hh|].
      rewrite Hh in Hmv. unfold modal_visible at 1 in Hmv. rewrite Hsh, Hsel in Hmv.
      rewrite Her. now apply blank_when_mounted with (modal_visible st).
Qed.

Lemma book_opens_an_empty_form_witness :
  selected (step Remount (ClickBook 1) (ada_at_form Remount)) = Some 1
  /\ showBooking (step Remount (ClickBook 1) (ada_at_form Remount)) = true
  /\ nameRef (step Remount (ClickBook 1) (ada_at_form Remount)) = Some EmptyString
  /\ emailRef (step Remount (ClickBook 1) (ada_at_form Remount)) = Some EmptyString
  /\ viewport (step Remount (ClickBook 1) (ada_at_form Remount))
     = viewport (ada_at_form Remount)
  /\ results (step Remount (ClickBook 1) (ada_at_form Remount))
     = results (ada_at_form Remount)
  /\ bookings (step Remount (ClickBook 1) (ada_at_form Remount))
     = bookings (ada_at_form Remount).
Proof.
  apply (book_opens_an_empty_form Remount (ada_at_form Remount) 1
           (mkDestination (IdNum 2%float) "Tokyo, Japan"
              (35.6895%float, 139.6917%float)
              "Ultra-modern city with unique culture and food.")).
  - apply run_reachable, started_reachable.
  - reflexivity.
Defined.

Lemma mounted_None o : mounted o = false -> o = None.
Proof. now destruct o. Qed.

Lemma modal_hidden st : showBooking st = false -> modal_visible st = false.
Proof. unfold modal_visible. now intros ->. Qed.

Lemma submit_without_input r st now iso :
  nameRef st = None -> bookings (step r (SubmitBooking now iso) st) = bookings st.
Proof.
  intros Hn. rewrite step_submit_bookings.
  destruct (handleConfirmBooking_cases now iso st)
    as [[H _]|(n & e & Hn' & _)]; [now rewrite H|congruence].
Qed.

(** X4. Whenever a submission creates a booking, the new booking refers to
    a Destination object of the heap (never null: the modal, whose inputs the
    handler reads, is shown only while something is selected); the modal is
    closed and its inputs are gone, so that submitting again right away
    creates nothing. *)
Theorem created_booking_has_a_destination r st now iso :
  reachable r st ->
  bookings (step r (SubmitBooking now iso) st) <> bookings st ->
  (exists b l d,
     bookings (step r (SubmitBooking now iso) st) = b :: bookings st
     /\ dest b = Some l
     /\ deref (heap (step r (SubmitBooking now iso) st)) l = Some d)
  /\ showBooking (step r (SubmitBooking now iso) st) = false
  /\ nameRef (step r (SubmitBooking now iso) st) = None
  /\ emailRef (step r (SubmitBooking now iso) st) = None
  /\ (forall now' iso',
        bookings (step r (SubmitBooking now' iso') (step r (SubmitBooking now iso) st))
        = bookings (step r (SubmitBooking now iso) st)).
Proof.
  intros Hr Hch. pose proof (reachable_settled r st Hr) as Hs.
  destruct (reachable_inputs r st Hr) as [Hn _].
  pose proof (reach_step r (SubmitBooking now iso) st Hr) as Hr1.
  destruct (reachable_inputs r _ Hr1) as [Hn1 He1].
  assert (Hcase : exists n e,
             nameRef st = Some n
             /\ handleConfirmBooking now iso st
                = emit (Alert "Booking successful! (mock)")
                    (setShowBooking false
                       (setBookings
                          (fun b => mkBooking now (selected st) (JsString.trim n)
                                      (JsString.trim e) iso :: b) st))).
  { destruct (handleConfirmBooking_cases now iso st)
      as [[H _]|(n & e & Hn' & _ & _ & _ & H)].
    - rewrite step_submit_bookings, H in Hch. now elim Hch.
    - now exists n, e. }
  destruct Hcase as (n & e & Hname & Hh).
  assert (Hshow : showBooking (step r (SubmitBooking now iso) st) = false).
  { unfold step. rewrite slots_showBooking. cbn [handle]. rewrite Hh.
    cbn [emit showBooking with_log]. apply setShowBooking_get. }
  pose proof (modal_hidden _ Hshow) as Hhid.
  rewrite Hhid in Hn1, He1.
  apply mounted_None in Hn1. apply mounted_None in He1.
  assert (Hbk : bookings (step r (SubmitBooking now iso) st)
                = mkBooking now (selected st) (JsString.trim n) (JsString.trim e) iso
                  :: bookings st).
  { now rewrite step_submit_bookings, Hh, created_bookings. }
  clear Hh.
  split; [|repeat split; try assumption].
  - rewrite Hname in Hn. cbn [mounted] in Hn. unfold modal_visible in Hn.
    destruct (showBooking st); [|discriminate].
    destruct (selected st) as [l|] eqn:Hsel; [|discriminate].
    destruct Hs as [_ _ _ _ _ _ Hvs _]. rewrite Hsel in Hvs. cbn in Hvs.
    unfold valid_loc in Hvs.
    destruct (deref (heap st) l) as [d|] eqn:Hd.
    + exists (mkBooking now (Some l) (JsString.trim n) (JsString.trim e) iso), l, d.
      repeat split; [exact Hbk|].
      destruct (step_heap r (SubmitBooking now iso) st) as [ext ->].
      now apply deref_app.
    + unfold deref in Hd. apply nth_error_None in Hd. lia.
  - intros now' iso'. now apply submit_without_input.
Qed.

Lemma created_booking_has_a_destination_witness :
  (exists b l d,
     bookings (step Remount (SubmitBooking ada_clock ada_date) (ada_at_form Remount))
     = b :: bookings (ada_at_form Remount)
     /\ dest b = Some l
     /\ deref (heap (step Remount (SubmitBooking ada_clock ada_date) (ada_at_form Remount))) l
        = Some d)
  /\ showBooking (step Remount (SubmitBooking ada_clock ada_date) (ada_at_form Remount))
     = false
  /\ nameRef (step Remount (SubmitBooking ada_clock ada_date) (ada_at_form Remount)) = None
  /\ emailRef (step Remount (SubmitBooking ada_clock ada_date) (ada_at_form Remount)) = None
  /\ (forall now' iso',
        bookings (step Remount (SubmitBooking now' iso')
                    (step Remount (SubmitBooking ada_clock ada_date) (ada_at_form Remount)))
        = bookings (step Remount (SubmitBooking ada_clock ada_date) (ada_at_form Remount))).
Proof.
  apply (created_booking_has_a_destination Remount (ada_at_form Remount)
           ada_clock ada_date).
  - apply run_reachable, started_reachable.
  - vm_compute. discriminate.
Defined.

(** X5. Closing the modal (its Cancel button) discards the form: the modal
    is hidden and its inputs are gone, while the selection, the viewport,
    the results and the ledger are as they were. *)
Theorem closing_discards_the_form r st :
  reachable r st ->
  showBooking (step r CloseBooking st) = false
  /\ nameRef (step r CloseBooking st) = None
  /\ emailRef (step r CloseBooking st) = None
  /\ selected (step r CloseBooking st) = selected st
  /\ viewport (step r CloseBooking st) = viewport st
  /\ results (step r CloseBooking st) = results st
  /\ bookings (step r CloseBooking st) = bookings st.
Proof.
  intros Hr.
  pose proof (reach_step r CloseBooking st Hr) as Hr1.
  destruct (reachable_inputs r _ Hr1) as [Hn1 He1].
  assert (Hshow : showBooking (step r CloseBooking st) = false).
  { unfold step. rewrite slots_showBooking. cbn [handle]. apply setShowBooking_get. }
  rewrite (modal_hidden _ Hshow) in Hn1, He1.
  apply mounted_None in Hn1. apply mounted_None in He1.
  unfold step in *.
  rewrite commit_selected, commit_viewport, commit_results, commit_bookings.
  cbn [handle].
  destruct (setShowBooking_frame false st) as (-> & _ & _ & -> & -> & -> & _).
  now repeat split.
Qed.

Lemma closing_discards_the_form_witness :
  showBooking (step Remount CloseBooking (ada_at_form Remount)) = false
  /\ nameRef (step Remount CloseBooking (ada_at_form Remount)) = None
  /\ emailRef (step Remount CloseBooking (ada_at_form Remount)) = None
  /\ selected (step Remount CloseBooking (ada_at_form Remount))
     = selected (ada_at_form Remount)
  /\ viewport (step Remount CloseBooking (ada_at_form Remount))
     = viewport (ada_at_form Remount)
  /\ results (step Remount CloseBooking (ada_at_form Remount))
     = results (ada_at_form Remount)
  /\ bookings (step Remount CloseBooking (ada_at_form Remount))
     = bookings (ada_at_form Remount).
Proof.
  apply (closing_discards_the_form Remount (ada_at_form Remount)).
  apply run_reachable, started_reachable.
Defined.

(** ** The bookings' buttons *)

(** X6. Go on a booking always finds the booking's destination: the
    viewport is put on its coordinates at zoom 6, and the selection, the
    results and the ledger are left alone, whatever the result list shows by
    then. *)
Theorem go_finds_the_booked_destination r st i b l :
  reachable r st ->
  nth_error (bookings st) i = Some b ->
  dest b = Some l ->
  exists d,
    deref (heap st) l = Some d
    /\ viewport (step r (ClickGo i) st)
       = mkViewport (fst (coords d)) (snd (coords d)) 6%float
    /\ selected (step r (ClickGo i) st) = selected st
    /\ results (step r (ClickGo i) st) = results st
    /\ bookings (step r (ClickGo i) st) = bookings st.
Proof.
  intros Hr Hi Hl. pose proof (reachable_settled r st Hr) as Hs.
  destruct Hs as [_ _ _ _ _ _ _ Hb].
  rewrite Forall_forall in Hb. apply nth_error_In in Hi as Hin.
  specialize (Hb b Hin). rewrite Hl in Hb. cbn in Hb. unfold valid_loc in Hb.
  destruct (deref (heap st) l) as [d|] eqn:Hd.
  - exists d. split; [reflexivity|]. unfold step.
    rewrite commit_viewport, commit_selected, commit_results, commit_bookings.
    cbn [handle]. rewrite Hi, Hl. unfold view_dest. rewrite Hd.
    now repeat split.
  - unfold deref in Hd. apply nth_error_None in Hd. lia.
Qed.

Lemma go_finds_the_booked_destination_witness :
  exists d,
    deref (heap (run Remount [ChangeQuery "goa"; SubmitSearch] (ada_booked Remount))) 0
    = Some d
    /\ viewport (step Remount (ClickGo 0)
                   (run Remount [ChangeQuery "goa"; SubmitSearch] (ada_booked Remount)))
       = mkViewport (fst (coords d)) (snd (coords d)) 6%float
    /\ selected (step Remount (ClickGo 0)
                   (run Remount [ChangeQuery "goa"; SubmitSearch] (ada_booked Remount)))
       = selected (run Remount [ChangeQuery "goa"; SubmitSearch] (ada_booked Remount))
    /\ results (step Remount (ClickGo 0)
                  (run Remount [ChangeQuery "goa"; SubmitSearch] (ada_booked Remount)))
       = results (run Remount [ChangeQuery "goa"; SubmitSearch] (ada_booked Remount))
    /\ bookings (step Remount (ClickGo 0)
                   (run Remount [ChangeQuery "goa"; SubmitSearch] (ada_booked Remount)))
       = bookings (run Remount [ChangeQuery "goa"; SubmitSearch] (ada_booked Remount)).
Proof.
  apply (go_finds_the_booked_destination Remount
           (run Remount [ChangeQuery "goa"; SubmitSearch] (ada_booked Remount)) 0
           (mkBooking ada_clock (Some 0) "Ada" "ada@example.com" ada_date) 0).
  - apply run_reachable, reach_step, run_reachable, started_reachable.
  - reflexivity.
  - reflexivity.
Defined.

(** ** What an event tells the collaborators *)

Ltac split_handler :=
  unfold handleSearch, handleSearch_resume, alloc, handleReset, openBooking,
    view_dest, cancelBooking, handleConfirmBooking, onViewportChange;
  cbv zeta;
  repeat match goal with
         | |- context [match ?x with _ => _ end] =>
             lazymatch x with
             | results _ => fail
             | _ => destruct x
             end
         end;
  unfold setQuery, setResults, setSelected, setViewport_with, setViewport,
    setBookings, setShowBooking, emit;
  repeat match goal with
         | |- context [if ?c then _ else _] => destruct c
         | |- context [match results ?s with _ => _ end] => destruct (results s)
         end;
  cbn.

(** No handler calls the map or the storage. *)
Lemma handle_log ev st :
  exists l,
    log (handle ev st) = l ++ log st
    /\ filter is_set_view l = [] /\ filter is_storage_write l = [].
Proof.
  destruct ev; cbn [handle]; split_handler;
    first [ exists []; repeat split; reflexivity
          | eexists [_]; repeat split; reflexivity ].
Qed.

Lemma render_storage_written r st :
  persist_effect_runs st = true ->
  storage (render r st) = Some (JSON_stringify (heap st) (bookings st)).
Proof.
  intros H. apply render_storage. unfold persist_effect_runs in H.
  destruct (persist_dep st) as [n|]; [|exact I].
  intros ->. now rewrite Nat.eqb_refl in H.
Qed.

(** X7. The handler of an event calls neither the map nor the storage.
    The render that follows calls nothing else than the map and the storage:
    it sends the map at most one "set view" command, which carries the
    viewport the state has once the event is done, and writes the storage at
    most once, under the key ["tp_bookings"], what the storage then holds. *)
Theorem event_tells_the_map_the_viewport r ev st :
  exists lh lr,
    log (handle ev st) = lh ++ log st
    /\ filter is_set_view lh = []
    /\ filter is_storage_write lh = []
    /\ log (step r ev st) = lr ++ lh ++ log st
    /\ Forall (fun e => is_set_view e || is_storage_write e = true) lr
    /\ List.length (filter is_set_view lr) <= 1
    /\ (forall a b c, In (MapSetView a b c) lr ->
        viewport (step r ev st) = mkViewport a b c)
    /\ List.length (filter is_storage_write lr) <= 1
    /\ (forall k t, In (StorageSetItem k t) lr ->
        k = STORAGE_KEY /\ storage (step r ev st) = Some t).
Proof.
  destruct (handle_log ev st) as (lh & Hl & Hm & Hw).
  exists lh. unfold step, commit. destruct (dirty (handle ev st)) eqn:Hd.
  - exists ((if persist_effect_runs (handle ev st)
             then [StorageSetItem STORAGE_KEY
                     (JSON_stringify (heap (handle ev st)) (bookings (handle ev st)))]
             else [])
            ++ (if map_effect_runs r (handle ev st)
                then [MapSetView (latitude (viewport (handle ev st)))
                        (longitude (viewport (handle ev st)))
                        (zoom (viewport (handle ev st)))]
                else [])).
    rewrite render_log, Hl, render_viewport, <- !app_assoc.
    split; [reflexivity|]. split; [exact Hm|]. split; [exact Hw|].
    split; [reflexivity|].
    destruct (persist_effect_runs (handle ev st)) eqn:Hp,
             (map_effect_runs r (handle ev st)) eqn:Hmr; cbn [app filter
               is_set_view is_storage_write List.length];
      (split; [repeat constructor|]); repeat split; try lia; intros;
      repeat match goal with
             | H : In _ (_ :: _) |- _ => destruct H as [H|H]
             | H : In _ [] |- _ => destruct H
             | H : MapSetView _ _ _ = MapSetView _ _ _ |- _ =>
                 injection H as <- <- <-
             | H : StorageSetItem _ _ = StorageSetItem _ _ |- _ =>
                 injection H as <- <-
             | H : StorageSetItem _ _ = MapSetView _ _ _ |- _ => discriminate H
             | H : MapSetView _ _ _ = StorageSetItem _ _ |- _ => discriminate H
             end;
      try (now destruct (viewport (handle ev st)));
      try reflexivity;
      try exact (render_storage_written r (handle ev st) Hp).
  - exists []. cbn [app filter List.length].
    split; [exact Hl|]. split; [exact Hm|]. split; [exact Hw|].
    split; [exact Hl|]. split; [constructor|].
    repeat split; try lia; intros;
      match goal with H : In _ [] |- _ => destruct H end.
Qed.

(** ** Who touches the ledger *)

Lemma handle_ledger_frame ev st :
  ledger_event ev = false ->
  bookings (handle ev st) = bookings st
  /\ bookings_ver (handle ev st) = bookings_ver st
  /\ persist_dep (handle ev st) = persist_dep st
  /\ storage (handle ev st) = storage st.
Proof.
  destruct ev; cbn [ledger_event]; try discriminate; intros _;
    cbn [handle]; split_handler; repeat split; reflexivity.
Qed.

(** X8. Only a submitted booking form and a Cancel on a booking can change
    the ledger: every other event leaves the ledger and the storage as they
    are, and writes nothing to the storage. *)
Theorem other_events_leave_the_ledger r ev st :
  reachable r st ->
  ledger_event ev = false ->
  bookings (step r ev st) = bookings st
  /\ storage (step r ev st) = storage st
  /\ filter is_storage_write (log (step r ev st)) = filter is_storage_write (log st).
Proof.
  intros Hr Hev. pose proof (reachable_settled r st Hr) as Hs.
  destruct (handle_ledger_frame ev st Hev) as (Hb & Hv & Hp & Hst).
  destruct (handle_log ev st) as (l & Hl & _ & Hw).
  assert (Hrun : persist_effect_runs (handle ev st) = false).
  { unfold persist_effect_runs. rewrite Hp, Hv.
    destruct Hs as [_ _ -> _ _ _ _ _]. now rewrite Nat.eqb_refl. }
  unfold step. rewrite commit_bookings. split; [exact Hb|].
  unfold commit. destruct (dirty (handle ev st)).
  - split.
    + unfold render.
      change (storage (persist_effect (map_effect r (mount_inputs (handle ev st))))
              = storage st).
      unfold persist_effect. rewrite map_effect_persist_runs.
      change (persist_effect_runs (mount_inputs (handle ev st)))
        with (persist_effect_runs (handle ev st)).
      rewrite Hrun. destruct (map_effect_persist r (mount_inputs (handle ev st))) as [_ ->].
      exact Hst.
    + rewrite render_log, Hrun, Hl. cbn [app]. rewrite !filter_app, Hw.
      now destruct (map_effect_runs r (handle ev st)).
  - split; [exact Hst|]. now rewrite Hl, filter_app, Hw.
Qed.

Lemma other_events_leave_the_ledger_witness :
  bookings (step Remount (MoveEnd gesture_end) (ada_booked Remount))
  = bookings (ada_booked Remount)
  /\ storage (step Remount (MoveEnd gesture_end) (ada_booked Remount))
     = storage (ada_booked Remount)
  /\ filter is_storage_write (log (step Remount (MoveEnd gesture_end) (ada_booked Remount)))
     = filter is_storage_write (log (ada_booked Remount)).
Proof.
  apply (other_events_leave_the_ledger Remount (MoveEnd gesture_end) (ada_booked Remount)).
  - apply reach_step, run_reachable, started_reachable.
  - reflexivity.
Defined.

(** X9. Creating a booking and cancelling it by its id puts the ledger and
    the storage back as they were, when no other booking had that id (and the
    clock reading is a number equal to itself). *)
Theorem create_then_cancel_restores_the_ledger r st now iso n e :
  reachable r st ->
  nameRef st = Some n -> emailRef st = Some e ->
  JsString.trim n <> EmptyString -> JsString.trim e <> EmptyString ->
  absent now (bookings st) ->
  strict_eq now now = true ->
  bookings (step r (ClickCancel now true) (step r (SubmitBooking now iso) st))
  = bookings st
  /\ storage (step r (ClickCancel now true) (step r (SubmitBooking now iso) st))
     = storage st.
Proof.
  intros Hr Hn He Hnn Hne Habs Hrefl.
  pose proof (reachable_settled r st Hr) as Hs.
  pose proof (reach_step r (ClickCancel now true) _
                (reach_step r (SubmitBooking now iso) st Hr)) as Hr2.
  pose proof (reachable_settled r _ Hr2) as Hs2.
  assert (Hb1 : bookings (step r (SubmitBooking now iso) st)
                = mkBooking now (selected st) (JsString.trim n) (JsString.trim e) iso
                  :: bookings st).
  { rewrite step_submit_bookings.
    destruct (handleConfirmBooking_cases now iso st)
      as [[_ H]|(n' & e' & Hn' & He' & _ & _ & H)].
    - destruct (H n e Hn He); contradiction.
    - rewrite H, created_bookings. congruence. }
  assert (Hb2 : bookings (step r (ClickCancel now true) (step r (SubmitBooking now iso) st))
                = bookings st).
  { unfold step at 1. rewrite commit_bookings. cbn [handle]. unfold cancelBooking.
    cbv zeta. cbn [negb bookings setBookings with_dirty with_bookings_ver
                   with_bookings emit with_log].
    rewrite Hb1. cbn [filter booking_id]. rewrite Hrefl. cbn [negb].
    now apply filter_absent. }
  split; [exact Hb2|].
  destruct Hs2 as [_ _ _ -> _ _ _ _]. destruct Hs as [_ _ _ -> _ _ _ Hval].
  rewrite Hb2. f_equal.
  destruct (step_heap r (SubmitBooking now iso) st) as [e1 H1].
  destruct (step_heap r (ClickCancel now true) (step r (SubmitBooking now iso) st))
    as [e2 H2].
  rewrite H2, H1, <- app_assoc. now apply JSON_stringify_app.
Qed.

Lemma create_then_cancel_restores_the_ledger_witness :
  bookings (step Remount (ClickCancel ada_clock true)
              (step Remount (SubmitBooking ada_clock ada_date) (ada_at_form Remount)))
  = bookings (ada_at_form Remount)
  /\ storage (step Remount (ClickCancel ada_clock true)
                (step Remount (SubmitBooking ada_clock ada_date) (ada_at_form Remount)))
     = storage (ada_at_form Remount).
Proof.
  apply (create_then_cancel_restores_the_ledger Remount (ada_at_form Remount)
           ada_clock ada_date "  Ada " "ada@example.com").
  - apply run_reachable, started_reachable.
  - reflexivity.
  - reflexivity.
  - vm_compute. discriminate.
  - vm_compute. discriminate.
  - constructor.
  - reflexivity.
Defined.

(** ** References are never dangling *)

(** X10. In every state the application goes through, each entry of the
    result list, the selection and the destination of each booking refer to
    an object of the heap, and the catalog's four objects are the first of
    the heap, unchanged. *)
Theorem references_are_live r st :
  reachable r st ->
  Forall (fun l => exists d, deref (heap st) l = Some d) (elems_of (results st))
  /\ (forall l, selected st = Some l -> exists d, deref (heap st) l = Some d)
  /\ Forall (fun b => forall l, dest b = Some l -> exists d, deref (heap st) l = Some d)
       (bookings st)
  /\ map (deref (heap st)) catalog_locs = map Some SAMPLE_DESTINATIONS.
Proof.
  intros Hr. destruct (reachable_settled r st Hr) as [_ _ _ _ [ext He] Hres Hsel Hb].
  assert (Hlive : forall l, valid_loc (heap st) l -> exists d, deref (heap st) l = Some d).
  { intros l Hl. unfold valid_loc in Hl. unfold deref.
    destruct (nth_error (heap st) l) eqn:E; [eauto|].
    apply nth_error_None in E. lia. }
  repeat split.
  - eapply Forall_impl; [|exact Hres]. exact Hlive.
  - intros l Hl. rewrite Hl in Hsel. now apply Hlive.
  - eapply Forall_impl; [|exact Hb]. intros b Hv l Hl. cbv beta in Hv.
    rewrite Hl in Hv. now apply Hlive.
  - now apply catalog_in_heap with ext.
Qed.

Lemma references_are_live_witness :
  Forall (fun l => exists d, deref (heap (ada_booked Remount)) l = Some d)
    (elems_of (results (ada_booked Remount)))
  /\ (forall l, selected (ada_booked Remount) = Some l ->
      exists d, deref (heap (ada_booked Remount)) l = Some d)
  /\ Forall (fun b => forall l, dest b = Some l ->
               exists d, deref (heap (ada_booked Remount)) l = Some d)
       (bookings (ada_booked Remount))
  /\ map (deref (heap (ada_booked Remount))) catalog_locs = map Some SAMPLE_DESTINATIONS.
Proof.
  apply (references_are_live Remount (ada_booked Remount)).
  apply reach_step, run_reachable, started_reachable.
Defined.

(** ** Starting over a stored ledger *)

(** X12. Starting over a storage entry that is missing, empty or no JSON
    gives the empty ledger, and the first render writes the empty ledger to
    the storage: what the entry held is replaced. *)
Theorem unreadable_storage_is_overwritten r s :
  (exists st,
     mount r (Some (NotJson s)) = Some st
     /\ bookings st = []
     /\ storage st = Some (Json (JArray []))
     /\ In (StorageSetItem STORAGE_KEY (Json (JArray []))) (log st))
  /\ (exists st,
        mount r None = Some st
        /\ bookings st = []
        /\ storage st = Some (Json (JArray []))
        /\ In (StorageSetItem STORAGE_KEY (Json (JArray []))) (log st)).
Proof.
  split.
  - unfold mount, initial_bookings. cbn [JSON_parse].
    destruct (text_truthy (NotJson s)); eexists; (split; [reflexivity|]);
      destruct r; cbn; auto.
  - eexists. split; [reflexivity|]. destruct r; cbn; auto.
Qed.

(** ** The local search *)

Lemma prefix_spec sub : forall s,
  String.prefix sub s = true <-> exists b, s = (sub ++ b)%string.
Proof.
  induction sub as [|c sub IH]; intros s.
  - split; [intros _; now exists s|intros _; now destruct s].
  - destruct s as [|c' s']; cbn [String.prefix].
    + split; [discriminate|]. intros [b Hb]. discriminate.
    + destruct (ascii_dec c c') as [->|Hne].
      * rewrite IH. split; intros [b Hb]; exists b.
        -- cbn. now rewrite Hb.
        -- cbn in Hb. now injection Hb.
      * split; [discriminate|]. intros [b Hb]. cbn in Hb. injection Hb as Hc _.
        now elim Hne.
Qed.

(** [includes] finds exactly the substrings. *)
Lemma includes_spec sub : forall s,
  JsString.includes s sub = true <-> exists a b, s = (a ++ sub ++ b)%string.
Proof.
  induction s as [|c s IH]; cbn [JsString.includes].
  - rewrite orb_false_r, prefix_spec. split.
    + intros [b Hb]. now exists EmptyString, b.
    + intros [a [b Hab]]. destruct a; [now exists b|discriminate].
  - rewrite orb_true_iff, prefix_spec, IH. split.
    + intros [[b Hb]|[a [b Hab]]].
      * now exists EmptyString, b.
      * exists (String c a), b. cbn. now rewrite Hab.
    + intros [a [b Hab]]. destruct a as [|c' a].
      * left. now exists b.
      * right. cbn in Hab. injection Hab as _ Hab. now exists a, b.
Qed.

(** X13. The local search finds a catalog entry exactly when the query, in
    lower case, occurs somewhere in the entry's name, in lower case. *)
Theorem found_iff_name_contains_query r st q l :
  reachable r st ->
  In l (local_matches (heap st) q)
  <-> exists d a b,
        nth_error SAMPLE_DESTINATIONS l = Some d
        /\ JsString.toLowerCase (dest_name d)
           = (a ++ JsString.toLowerCase q ++ b)%string.
Proof.
  intros Hr. destruct (reachable_settled r st Hr) as [_ _ _ _ [ext He] _ _ _].
  unfold local_matches. rewrite filter_In. unfold catalog_locs. rewrite in_seq.
  assert (Hd : forall k, k < List.length SAMPLE_DESTINATIONS ->
                         deref (heap st) k = nth_error SAMPLE_DESTINATIONS k).
  { intros k Hk. rewrite He. unfold deref. now apply nth_error_app1. }
  split.
  - intros [[_ Hl] Hm]. cbn [Nat.add] in Hl. rewrite (Hd l Hl) in Hm.
    destruct (nth_error SAMPLE_DESTINATIONS l) as [d|]; [|discriminate].
    apply includes_spec in Hm. destruct Hm as (a & b & Hab). now exists d, a, b.
  - intros (d & a & b & Hn & Hab).
    assert (Hl : l < List.length SAMPLE_DESTINATIONS)
      by (apply nth_error_Some; congruence).
    split; [lia|]. rewrite (Hd l Hl), Hn. apply includes_spec. now exists a, b.
Qed.

Lemma found_iff_name_contains_query_witness :
  In 1 (local_matches (heap (tokyo_typed Remount)) "KYO")
  <-> exists d a b,
        nth_error SAMPLE_DESTINATIONS 1 = Some d
        /\ JsString.toLowerCase (dest_name d)
           = (a ++ JsString.toLowerCase "KYO" ++ b)%string.
Proof.
  apply (found_iff_name_contains_query Remount (tokyo_typed Remount) "KYO" 1).
  apply reach_step, started_reachable.
Defined.

(** ** Trimming loses only the margins *)

Lemma trimStart_margin s :
  exists w, all_white w = true /\ s = (w ++ JsString.trimStart s)%string.
Proof.
  induction s as [|c s [w [Hw Hs]]]; cbn [JsString.trimStart].
  - now exists EmptyString.
  - destruct (JsString.is_white_space c) eqn:Hc.
    + exists (String c w). cbn. rewrite Hc, Hw. split; [reflexivity|]. now rewrite <- Hs.
    + now exists EmptyString.
Qed.

Lemma trimEnd_margin s :
  exists w, all_white w = true /\ s = (JsString.trimEnd s ++ w)%string.
Proof.
  induction s as [|c s [w [Hw Hs]]]; cbn [JsString.trimEnd].
  - now exists EmptyString.
  - destruct (JsString.trimEnd s) as [|c' r'] eqn:Ht.
    + cbn in Hs. subst s. destruct (JsString.is_white_space c) eqn:Hc.
      * exists (String c w). cbn. now rewrite Hc, Hw.
      * exists w. now split.
    + exists w. split; [exact Hw|]. cbn in Hs |- *. now rewrite <- Hs.
Qed.

Lemma trim_margins s :
  exists w1 w2,
    all_white w1 = true /\ all_white w2 = true
    /\ s = (w1 ++ JsString.trim s ++ w2)%string.
Proof.
  destruct (trimStart_margin s) as [w1 [H1 Hs]].
  destruct (trimEnd_margin (JsString.trimStart s)) as [w2 [H2 Ht]].
  exists w1, w2. unfold JsString.trim. repeat split; try assumption.
  now rewrite <- Ht.
Qed.

(** X14. Whenever a submission creates a booking, the name and the email
    typed are the stored ones with white space before and after them, and
    nothing else: trimming loses no other character. *)
Theorem stored_contact_is_the_input_without_margins r st now iso :
  bookings (step r (SubmitBooking now iso) st) <> bookings st ->
  exists b n e w1 w2 w3 w4,
    bookings (step r (SubmitBooking now iso) st) = b :: bookings st
    /\ nameRef st = Some n /\ emailRef st = Some e
    /\ all_white w1 = true /\ all_white w2 = true
    /\ all_white w3 = true /\ all_white w4 = true
    /\ n = (w1 ++ booking_name b ++ w2)%string
    /\ e = (w3 ++ booking_email b ++ w4)%string.
Proof.
  rewrite step_submit_bookings. intros Hch.
  destruct (handleConfirmBooking_cases now iso st)
    as [[H _]|(n & e & Hn & He & _ & _ & H)].
  - rewrite H in Hch. now elim Hch.
  - destruct (trim_margins n) as (w1 & w2 & H1 & H2 & Hnn).
    destruct (trim_margins e) as (w3 & w4 & H3 & H4 & Hee).
    rewrite H, created_bookings.
    eexists. exists n, e, w1, w2, w3, w4.
    split; [reflexivity|]. cbn [booking_name booking_email].
    now repeat split.
Qed.

Lemma stored_contact_is_the_input_without_margins_witness :
  exists b n e w1 w2 w3 w4,
    bookings (step Remount (SubmitBooking ada_clock ada_date) (ada_at_form Remount))
    = b :: bookings (ada_at_form Remount)
    /\ nameRef (ada_at_form Remount) = Some n
    /\ emailRef (ada_at_form Remount) = Some e
    /\ all_white w1 = true /\ all_white w2 = true
    /\ all_white w3 = true /\ all_white w4 = true
    /\ n = (w1 ++ booking_name b ++ w2)%string
    /\ e = (w3 ++ booking_email b ++ w4)%string.
Proof.
  apply (stored_contact_is_the_input_without_margins Remount (ada_at_form Remount)
           ada_clock ada_date).
  vm_compute. discriminate.
Defined.

(** ** The ledger's order *)



(** ** Every booking has a destination *)

Lemma bookings_of_json_dest js : forall bds,
  bookings_of_json js = Some bds -> Forall (fun bd => bd_dest bd <> None) bds.
Proof.
  induction js as [|j r IH]; cbn [bookings_of_json]; intros bds.
  - intros [= <-]. constructor.
  - destruct (booking_of_json j) as [b|] eqn:Eb; [|discriminate].
    destruct (bookings_of_json r) as [bs|]; [|discriminate].
    intros [= <-]. constructor; [|now apply IH].
    unfold booking_of_json in Eb.
    repeat match type of Eb with
           | match ?x with _ => _ end = Some _ => destruct x; try discriminate
           end.
    injection Eb as <-. discriminate.
Qed.

Lemma materialize_dest bds : forall h,
  Forall (fun bd => bd_dest bd <> None) bds ->
  Forall (fun b => dest b <> None) (snd (materialize h bds)).
Proof.
  induction bds as [|b r IH]; intros h Hall; cbn [materialize].
  - constructor.
  - inversion Hall as [|? ? Hb Hr]; subst.
    destruct (bd_dest b) as [dd|]; [|now elim Hb].
    specialize (IH (h ++ [dd]) Hr).
    destruct (materialize (h ++ [dd]) r) as [h2 r']. cbn [snd] in *.
    constructor; [discriminate|exact IH].
Qed.

Lemma mount_with_destinations r saved st :
  mount r saved = Some st -> with_destinations st.
Proof.
  unfold mount. destruct (initial_bookings saved) as [[h bs]|] eqn:Ei; [|discriminate].
  intros [= <-]. unfold with_destinations, boot. rewrite commit_bookings.
  cbn [bookings]. unfold initial_bookings in Ei.
  destruct saved as [t|]; [|injection Ei as _ <-; constructor].
  destruct (text_truthy t); [|injection Ei as _ <-; constructor].
  destruct (JSON_parse t) as [j|]; [|injection Ei as _ <-; constructor].
  destruct j; try discriminate.
  destruct (bookings_of_json items) as [bds|] eqn:Eb; [|discriminate].
  pose proof (materialize_dest bds SAMPLE_DESTINATIONS (bookings_of_json_dest _ _ Eb)) as H.
  injection Ei as Ei. now rewrite Ei in H.
Qed.

Lemma step_with_destinations r ev st :
  reachable r st -> with_destinations st -> with_destinations (step r ev st).
Proof.
  intros Hr Hw. unfold with_destinations, step. rewrite commit_bookings.
  destruct (ledger_event ev) eqn:Hev.
  - destruct ev; try discriminate; cbn [handle].
    + unfold cancelBooking. cbv zeta. destruct (negb answer); [exact Hw|].
      cbn. apply Forall_forall. intros b Hb. apply filter_In in Hb as [Hb _].
      unfold with_destinations in Hw. rewrite Forall_forall in Hw. now apply Hw.
    + destruct (handleConfirmBooking_cases now iso st)
        as [[H _]|(n & e & Hn & _ & _ & _ & H)]; rewrite H; [exact Hw|].
      rewrite created_bookings. constructor; [|exact Hw]. cbn [dest].
      destruct (reachable_inputs r st Hr) as [Hm _].
      rewrite Hn in Hm. cbn [mounted] in Hm. unfold modal_visible in Hm.
      destruct (showBooking st); [|discriminate].
      destruct (selected st); [discriminate|discriminate].
  - now destruct (handle_ledger_frame ev st Hev) as (-> & _).
Qed.

Lemma reachable_with_destinations r st : reachable r st -> with_destinations st.
Proof.
  induction 1 as [saved st Hm|ev st Hr IH].
  - now apply mount_with_destinations with r saved.
  - now apply step_with_destinations.
Qed.

Lemma reachable_views_have_destinations r st :
  reachable r st ->
  Forall (fun b => bd_dest (booking_view (heap st) b) <> None) (bookings st).
Proof.
  intros Hr. pose proof (reachable_with_destinations r st Hr) as Hw.
  destruct (reachable_settled r st Hr) as [_ _ _ _ _ _ _ Hb].
  unfold with_destinations in Hw. rewrite Forall_forall in *.
  intros b Hin. specialize (Hw b Hin). specialize (Hb b Hin).
  unfold booking_view. cbn [bd_dest].
  destruct (dest b) as [l|]; [|now elim Hw].
  cbn in Hb. unfold valid_loc in Hb. unfold deref.
  intros E. apply nth_error_None in E. lia.
Qed.

(** ** Persistence *)

(** C5, as the code has it.  Between two events the storage holds, under
    the key ["tp_bookings"], the serialized ledger.  Starting the application
    over that content gives the same bookings in the same order, each with
    the same id, destination, name, email and date, when the numbers of the
    ledger are ones JSON writes exactly (finite, not the negative zero).
    Starting over a missing entry, or over a text that is no JSON, gives the
    empty ledger. *)
Theorem ledger_survives_reload r st :
  reachable r st ->
  forallb (fun b => exact_booking (booking_view (heap st) b)) (bookings st) = true ->
  storage st = Some (JSON_stringify (heap st) (bookings st))
  /\ (exists st',
        mount r (storage st) = Some st'
        /\ map (booking_view (heap st')) (bookings st')
           = map (booking_view (heap st)) (bookings st))
  /\ (exists st0, mount r None = Some st0 /\ bookings st0 = [])
  /\ (forall s, exists st0, mount r (Some (NotJson s)) = Some st0 /\ bookings st0 = []).
Proof.
  intros Hr Hex. pose proof (reachable_settled r st Hr) as Hs.
  pose proof (reachable_views_have_destinations r st Hr) as Hdest.
  destruct Hs as [_ _ _ Hst _ _ _ _]. split; [exact Hst|]. split; [|split].
  - rewrite Hst. unfold mount, initial_bookings, JSON_stringify.
    cbn [text_truthy JSON_parse].
    rewrite (bookings_roundtrip _ _ Hdest Hex).
    destruct (materialize_spec (map (booking_view (heap st)) (bookings st))
                SAMPLE_DESTINATIONS) as [ext [_ [_ Hm]]].
    destruct (materialize SAMPLE_DESTINATIONS
                (map (booking_view (heap st)) (bookings st))) as [h' bs'].
    cbn [fst snd] in Hm. eexists. split; [reflexivity|].
    destruct (boot_slots r (Some (Json (JArray (map (json_of_booking (heap st)) (bookings st)))))
                h' bs') as [-> ->].
    exact Hm.
  - eexists. split; [reflexivity|].
    now destruct (boot_slots r None SAMPLE_DESTINATIONS []) as [_ ->].
  - intros s. unfold mount, initial_bookings. cbn [JSON_parse].
    destruct (text_truthy (NotJson s)); eexists; (split; [reflexivity|]);
      now destruct (boot_slots r (Some (NotJson s)) SAMPLE_DESTINATIONS []) as [_ ->].
Qed.

Lemma ledger_survives_reload_witness :
  storage (ada_booked Remount)
  = Some (JSON_stringify (heap (ada_booked Remount)) (bookings (ada_booked Remount)))
  /\ (exists st',
        mount Remount (storage (ada_booked Remount)) = Some st'
        /\ map (booking_view (heap st')) (bookings st')
           = map (booking_view (heap (ada_booked Remount))) (bookings (ada_booked Remount)))
  /\ (exists st0, mount Remount None = Some st0 /\ bookings st0 = [])
  /\ (forall s, exists st0,
        mount Remount (Some (NotJson s)) = Some st0 /\ bookings st0 = []).
Proof.
  apply (ledger_survives_reload Remount (ada_booked Remount)).
  - apply reach_step, run_reachable, started_reachable.
  - vm_compute. reflexivity.
Defined.


(** C5, as the claim has it, fails: a number JSON does not write exactly
    is not read back.  Ada books a place the geocoder put at latitude -0;
    the storage holds 0 for it, and so does the ledger of the application
    started over that storage.  A latitude that is infinite is written as
    null. *)
Lemma negative_zero_is_not_read_back :
  reachable Remount (null_island_booked Remount)
  /\ (exists st',
        mount Remount (storage (null_island_booked Remount)) = Some st'
        /\ map (fun b => option_map coords (bd_dest (booking_view (heap st') b)))
             (bookings st')
           = [Some (0%float, 0%float)]
        /\ map (fun b => option_map coords
                           (bd_dest (booking_view (heap (null_island_booked Remount)) b)))
             (bookings (null_island_booked Remount))
           = [Some (PrimFloat.neg_zero, 0%float)]
        /\ map (booking_view (heap st')) (bookings st')
           <> map (booking_view (heap (null_island_booked Remount)))
                (bookings (null_island_booked Remount)))
  /\ json_of_destination (geocoded 0 (mkOsmRecord "Far" PrimFloat.infinity 0%float))
     = JObject [ ("id", JString "osm-0"); ("name", JString "Far");
                 ("coords", JArray [JNull; JNumber 0%float]);
                 ("summary", JString "Far") ].
Proof.
  split; [apply run_reachable, reach_step, started_reachable|].
  split; [|vm_compute; reflexivity].
  eexists. split; [vm_compute; reflexivity|].
  split; [vm_compute; reflexivity|]. split; [vm_compute; reflexivity|].
  intros H.
  apply (f_equal (fun l => match l with
                           | [b] => match bd_dest b with
                                    | Some d => fst (coords d)
                                    | None => 1%float
                                    end
                           | _ => 1%float
                           end)) in H.
  vm_compute in H. revert H. apply float_neq. reflexivity.
Qed.
